(** * Consequence Ledger: hash chain, verifier, anchors and daily publish

    A shallow embedding of [ledger.py], [ai_layer.py] and [finalize.py],
    with the anchor reader of [demo_report.py] and the text parsers of
    [warn.py] and [harm_report.py].

    Modelling conventions.
    - A Python [str] is the list of its Unicode code points ([list N]).
      String constants of the source are written [u "..."] (all of them
      are ASCII).
    - Text files live in one file system, a finite map from path to
      decoded text; two parameters naming the same path name the same file.
    - The SQLite table [ledger_events] is the list of its rows in rowid
      (insertion) order; the code never deletes rows.
    - Failing code returns [inl e]; code that also changes the world is a
      function of the world returning the outcome and the world left
      behind.
    - The clock, [uuid4], the process environment and the SMTP exchange
      are inputs. *)

From Stdlib Require Import ZArith NArith List String Ascii Bool Lia.
From Stdlib Require Import Sorted Permutation.
From stdpp Require Import gmap list pretty.
Import ListNotations.

#[local] Set Warnings "-register-all".

(** A source string constant, as code points. *)
Definition u (s : string) : list N :=
  List.map N_of_ascii (list_ascii_of_string s).

(** ** hashlib.sha256 (FIPS 180-4) over bytes, bytes and words as [Z] *)
Module SHA256.
Local Open Scope Z_scope.

Definition mask32 : Z := 4294967295.
Definition wrap (x : Z) : Z := Z.land x mask32.
Definition add32 (x y : Z) : Z := wrap (x + y).
Definition rotr (n x : Z) : Z :=
  Z.lor (Z.shiftr x n) (wrap (Z.shiftl x (32 - n))).
Definition not32 (x : Z) : Z := Z.lxor x mask32.

Definition choose (x y z : Z) : Z :=
  Z.lxor (Z.land x y) (Z.land (not32 x) z).
Definition majority (x y z : Z) : Z :=
  Z.lxor (Z.lxor (Z.land x y) (Z.land x z)) (Z.land y z).
Definition big_sigma0 (x : Z) : Z :=
  Z.lxor (Z.lxor (rotr 2 x) (rotr 13 x)) (rotr 22 x).
Definition big_sigma1 (x : Z) : Z :=
  Z.lxor (Z.lxor (rotr 6 x) (rotr 11 x)) (rotr 25 x).
Definition small_sigma0 (x : Z) : Z :=
  Z.lxor (Z.lxor (rotr 7 x) (rotr 18 x)) (Z.shiftr x 3).
Definition small_sigma1 (x : Z) : Z :=
  Z.lxor (Z.lxor (rotr 17 x) (rotr 19 x)) (Z.shiftr x 10).

Definition hex_value (c : ascii) : Z :=
  let n := Z.of_N (N_of_ascii c) in
  if (48 <=? n) && (n <=? 57) then n - 48 else n - 87.

(** Words written as groups of eight lower-case hex digits. *)
Fixpoint words_of_hex (acc : Z) (k : nat) (s : string) : list Z :=
  match s with
  | EmptyString => []
  | String c rest =>
      let acc' := acc * 16 + hex_value c in
      match k with
      | O => acc' :: words_of_hex 0 7%nat rest
      | S k' => words_of_hex acc' k' rest
      end
  end.

Definition round_constants : list Z := words_of_hex 0 7%nat
  ("428a2f9871374491b5c0fbcfe9b5dba53956c25b59f111f1923f82a4ab1c5ed5" ++
   "d807aa9812835b01243185be550c7dc372be5d7480deb1fe9bdc06a7c19bf174" ++
   "e49b69c1efbe47860fc19dc6240ca1cc2de92c6f4a7484aa5cb0a9dc76f988da" ++
   "983e5152a831c66db00327c8bf597fc7c6e00bf3d5a7914706ca635114292967" ++
   "27b70a852e1b21384d2c6dfc53380d13650a7354766a0abb81c2c92e92722c85" ++
   "a2bfe8a1a81a664bc24b8b70c76c51a3d192e819d6990624f40e3585106aa070" ++
   "19a4c1161e376c082748774c34b0bcb5391c0cb34ed8aa4a5b9cca4f682e6ff3" ++
   "748f82ee78a5636f84c878148cc7020890befffaa4506cebbef9a3f7c67178f2")%string.

Definition initial_state : list Z := words_of_hex 0 7%nat
  "6a09e667bb67ae853c6ef372a54ff53a510e527f9b05688c1f83d9ab5be0cd19".

(** Big-endian bytes of a [k]-byte quantity. *)
Fixpoint be_bytes (k : nat) (x : Z) : list Z :=
  match k with
  | O => []
  | S k' => Z.land (Z.shiftr x (8 * Z.of_nat k')) 255 :: be_bytes k' x
  end.

Definition pad (msg : list Z) : list Z :=
  let len := Z.of_nat (List.length msg) in
  let zeros := Z.to_nat ((55 - len) mod 64) in
  msg ++ 128 :: List.repeat 0 zeros ++ be_bytes 8 (8 * len).

Fixpoint be_words (fuel : nat) (bs : list Z) : list Z :=
  match fuel, bs with
  | S fuel', b0 :: b1 :: b2 :: b3 :: rest =>
      (((b0 * 256 + b1) * 256 + b2) * 256 + b3) :: be_words fuel' rest
  | _, _ => []
  end.

(** The message schedule, most recent word first. *)
Fixpoint schedule (k : nat) (rev_w : list Z) : list Z :=
  match k with
  | O => rev_w
  | S k' =>
      let w := add32 (add32 (small_sigma1 (List.nth 1 rev_w 0))
                            (List.nth 6 rev_w 0))
                     (add32 (small_sigma0 (List.nth 14 rev_w 0))
                            (List.nth 15 rev_w 0)) in
      schedule k' (w :: rev_w)
  end.

Record regs := Regs { ra : Z; rb : Z; rc : Z; rd : Z;
                      re : Z; rf : Z; rg : Z; rh : Z }.

Definition round (s : regs) (kw : Z * Z) : regs :=
  let t1 := add32 (add32 (add32 (rh s) (big_sigma1 (re s)))
                         (add32 (choose (re s) (rf s) (rg s)) (fst kw)))
                  (snd kw) in
  let t2 := add32 (big_sigma0 (ra s)) (majority (ra s) (rb s) (rc s)) in
  Regs (add32 t1 t2) (ra s) (rb s) (rc s) (add32 (rd s) t1) (re s) (rf s) (rg s).

Definition compress (s : regs) (block : list Z) : regs :=
  let w := List.rev (schedule 48 (List.rev (be_words 16 block))) in
  let r := List.fold_left round (List.combine round_constants w) s in
  Regs (add32 (ra s) (ra r)) (add32 (rb s) (rb r))
       (add32 (rc s) (rc r)) (add32 (rd s) (rd r))
       (add32 (re s) (re r)) (add32 (rf s) (rf r))
       (add32 (rg s) (rg r)) (add32 (rh s) (rh r)).

Fixpoint blocks (fuel : nat) (s : regs) (bs : list Z) : regs :=
  match fuel, bs with
  | S fuel', _ :: _ =>
      blocks fuel' (compress s (List.firstn 64 bs)) (List.skipn 64 bs)
  | _, _ => s
  end.

Definition start : regs :=
  match initial_state with
  | [a; b; c; d; e; f; g; h] => Regs a b c d e f g h
  | _ => Regs 0 0 0 0 0 0 0 0
  end.

Definition digest (msg : list Z) : list Z :=
  let p := pad msg in
  let r := blocks (List.length p) start p in
  [ra r; rb r; rc r; rd r; re r; rf r; rg r; rh r].

Definition hex_digit (d : Z) : N :=
  Z.to_N (if d <? 10 then 48 + d else 87 + d).

Fixpoint hex_of_word (k : nat) (x : Z) : list N :=
  match k with
  | O => []
  | S k' => hex_digit (Z.land (Z.shiftr x (4 * Z.of_nat k')) 15)
              :: hex_of_word k' x
  end.

Definition hexdigest (msg : list Z) : list N :=
  List.concat (List.map (hex_of_word 8) (digest msg)).
End SHA256.

(** [s.encode("utf-8")]: one to four bytes per code point.  Surrogates,
    which Python refuses to encode, do not occur in text decoded from
    SQLite or from UTF-8 files. *)
Definition utf8_char (c : N) : list Z :=
  let z := Z.of_N c in
  (if z <? 128 then [z]
   else if z <? 2048 then
     [Z.lor 192 (Z.shiftr z 6); Z.lor 128 (Z.land z 63)]
   else if z <? 65536 then
     [Z.lor 224 (Z.shiftr z 12); Z.lor 128 (Z.land (Z.shiftr z 6) 63);
      Z.lor 128 (Z.land z 63)]
   else
     [Z.lor 240 (Z.shiftr z 18); Z.lor 128 (Z.land (Z.shiftr z 12) 63);
      Z.lor 128 (Z.land (Z.shiftr z 6) 63); Z.lor 128 (Z.land z 63)])%Z.

Definition utf8_encode (s : list N) : list Z := List.concat (List.map utf8_char s).

(** ** Python [str] operations used by the code *)

(** [str.isspace] for one character. *)
Definition isspace (c : N) : bool :=
  ((9 <=? c) && (c <=? 13) || (28 <=? c) && (c <=? 32)
   || (c =? 133) || (c =? 160) || (c =? 5760)
   || (8192 <=? c) && (c <=? 8202)
   || (c =? 8232) || (c =? 8233) || (c =? 8239) || (c =? 8287)
   || (c =? 12288))%N.

Fixpoint lstrip (s : list N) : list N :=
  match s with
  | c :: r => if isspace c then lstrip r else s
  | [] => []
  end.

Fixpoint rstrip (s : list N) : list N :=
  match s with
  | [] => []
  | c :: r =>
      match rstrip r with
      | [] => if isspace c then [] else [c]
      | r' => c :: r'
      end
  end.

(** [s.strip()] *)
Definition strip (s : list N) : list N := rstrip (lstrip s).

(** [s.startswith(p)] *)
Fixpoint startswith (s p : list N) : bool :=
  match p, s with
  | [], _ => true
  | x :: p', y :: s' => (x =? y)%N && startswith s' p'
  | _ :: _, [] => false
  end.

(** [s.split(sep, 1)] for a one-character [sep]: [None] when [sep] does
    not occur ([sep in s] is false), else the text before and after its
    first occurrence. *)
Fixpoint split1 (sep : N) (s : list N) : option (list N * list N) :=
  match s with
  | [] => None
  | c :: r =>
      if (c =? sep)%N then Some ([], r)
      else match split1 sep r with
           | Some (a, b) => Some (c :: a, b)
           | None => None
           end
  end.

(** The characters at which [str.splitlines] breaks. *)
Definition is_linebreak (c : N) : bool :=
  ((10 <=? c) && (c <=? 13) || (28 <=? c) && (c <=? 30)
   || (c =? 133) || (c =? 8232) || (c =? 8233))%N.

(** [s.splitlines()]: line ends dropped, CR LF counted once, no empty
    last line. *)
Fixpoint splitlines (s : list N) : list (list N) :=
  match s with
  | [] => []
  | c :: r =>
      if is_linebreak c then
        [] :: match r with
              | d :: r' => if (c =? 13)%N && (d =? 10)%N
                           then splitlines r' else splitlines r
              | [] => splitlines r
              end
      else match splitlines r with
           | [] => [[c]]
           | l :: ls => (c :: l) :: ls
           end
  end.

(** Text-mode reading ([newline=None]): CR LF and a lone CR arrive as LF. *)
Fixpoint universal_newlines (s : list N) : list N :=
  match s with
  | [] => []
  | c :: r =>
      if (c =? 13)%N then
        10%N :: match r with
                | d :: r' => if (d =? 10)%N then universal_newlines r'
                             else universal_newlines r
                | [] => universal_newlines r
                end
      else c :: universal_newlines r
  end.

(** [for line in f] over translated text: each line keeps its LF. *)
Fixpoint readlines (s : list N) : list (list N) :=
  match s with
  | [] => []
  | c :: r =>
      if (c =? 10)%N then [10%N] :: readlines r
      else match readlines r with
           | [] => [[c]]
           | l :: ls => (c :: l) :: ls
           end
  end.

(** [sep.join(parts)] *)
Fixpoint join (sep : list N) (parts : list (list N)) : list N :=
  match parts with
  | [] => []
  | [p] => p
  | p :: rest => p ++ sep ++ join sep rest
  end.

(** Comparison of two strings by code point, as Python compares [str] and
    as SQLite compares TEXT under the BINARY collation. *)
Fixpoint str_leb (a b : list N) : bool :=
  match a, b with
  | [], _ => true
  | _ :: _, [] => false
  | x :: a', y :: b' =>
      if (x <? y)%N then true
      else if (x =? y)%N then str_leb a' b' else false
  end.

(** Stable ordering of records by a string key: records with equal keys
    keep their relative order. *)
Section OrderBy.
Context {A : Type} (key : A -> list N).

Fixpoint insert_by (x : A) (l : list A) : list A :=
  match l with
  | [] => [x]
  | y :: l' =>
      if str_leb (key x) (key y) then x :: l else y :: insert_by x l'
  end.

Definition order_by (l : list A) : list A := List.fold_right insert_by [] l.
End OrderBy.

(** ** json.dumps on values without floats *)
Inductive json :=
| JNull
| JBool (b : bool)
| JInt (z : Z)
| JStr (s : list N)
| JList (items : list json)
| JDict (items : list (list N * json)).

Definition hex4 (n : N) : list N := SHA256.hex_of_word 4 (Z.of_N n).

(** One character inside a JSON string literal. *)
Definition json_escape_char (ensure_ascii : bool) (c : N) : list N :=
  if (c =? 34)%N then [92; 34]%N else
  if (c =? 92)%N then u "\\" else
  if (c =? 10)%N then u "\n" else
  if (c =? 13)%N then u "\r" else
  if (c =? 9)%N then u "\t" else
  if (c =? 8)%N then u "\b" else
  if (c =? 12)%N then u "\f" else
  if (c <? 32)%N then u "\u" ++ hex4 c else
  if negb ensure_ascii || (c <? 127)%N then [c] else
  if (c <? 65536)%N then u "\u" ++ hex4 c else
  let n := (c - 65536)%N in
  u "\u" ++ hex4 (N.lor 55296 (N.land (N.shiftr n 10) 1023)) ++
  u "\u" ++ hex4 (N.lor 56320 (N.land n 1023)).

Definition json_string (ensure_ascii : bool) (s : list N) : list N :=
  [34%N] ++ List.concat (List.map (json_escape_char ensure_ascii) s) ++ [34%N].

(** [json.dumps(v, ensure_ascii=.., sort_keys=.., separators=(item, key))] *)
Fixpoint json_dumps (ensure_ascii sort_keys : bool) (item_sep key_sep : list N)
    (v : json) : list N :=
  match v with
  | JNull => u "null"
  | JBool b => if b then u "true" else u "false"
  | JInt z => u (pretty z)
  | JStr s => json_string ensure_ascii s
  | JList items =>
      u "[" ++ join item_sep
        (List.map (json_dumps ensure_ascii sort_keys item_sep key_sep) items)
      ++ u "]"
  | JDict items =>
      let enc := List.map (fun kv =>
        match kv with
        | (k, x) => (k, json_dumps ensure_ascii sort_keys item_sep key_sep x)
        end) items in
      let enc := if sort_keys then order_by fst enc else enc in
      u "{" ++ join item_sep
        (List.map (fun kv => json_string ensure_ascii (fst kv) ++ key_sep ++ snd kv) enc)
      ++ u "}"
  end.

(** The quotation mark. *)
Definition dq : list N := [34%N].

(** ** Exceptions *)

(** The [ValueError] messages of the code. *)
Inductive message :=
| ChainBroken (idx : nat)
    (** "Chain broken at event #idx: prev_hash mismatch." *)
| TamperDetected (idx : nat)
    (** "Tamper detected at event #idx: hash mismatch." *)
| AnchorNotFound (path : list N)
    (** "Anchor file not found: path" *)
| AnchorMissingLatestHash
    (** "Anchor file missing latest_hash" *)
| AnchorMismatch (db_last anchored : list N)
    (** "ANCHOR MISMATCH ..." *)
| MissingSMTP
    (** "Missing SMTP environment variables. ..." *)
| InvalidInt (s : list N).
    (** raised by [int] on text that is not a number *)

Inductive exn :=
| ValueError (m : message)
| IntegrityError              (** sqlite3.IntegrityError: a UNIQUE index or
                                  the primary key rejects the row *)
| TypeError
| IndexError
| LibraryError (name : list N). (** anything raised while the mail is
                                    composed and sent *)

(** ** The table [ledger_events] *)
Record Row := Event {
  event_id : list N;
  created_at : list N;
  event_type : list N;
  entity_type : list N;
  entity_id : list N;
  payload_json : list N;
  prev_hash : list N;
  event_hash : list N
}.

(** [SELECT * FROM ledger_events ORDER BY created_at ASC].  The index
    [idx_ledger_events_created_at] holds (created_at, rowid) in order, so
    rows with equal [created_at] come in insertion order. *)
Definition select_order_by_created_at_asc (t : list Row) : list Row :=
  order_by created_at t.

(** [... ORDER BY created_at DESC]: the same index read backwards. *)
Definition select_order_by_created_at_desc (t : list Row) : list Row :=
  List.rev (order_by created_at t).

(** [INSERT INTO ledger_events ... VALUES (...)]: [event_id] is the
    primary key and [idx_ledger_events_event_hash] is UNIQUE; a rejected
    statement leaves the table as it was. *)
Definition insert_event (r : Row) (t : list Row) : (exn + unit) * list Row :=
  if List.existsb (fun x => bool_decide (event_id x = event_id r)) t
     || List.existsb (fun x => bool_decide (event_hash x = event_hash r)) t
  then (inl IntegrityError, t)
  else (inr tt, t ++ [r]).

(** The text the builders and the verifier hash, named for the statements:
    ["|".join([prev_hash, created_at, event_type, entity_type, entity_id,
    payload_json])]. *)
Definition material (prev_hash created_at event_type entity_type entity_id
                     payload_json : list N) : list N :=
  join (u "|") [prev_hash; created_at; event_type; entity_type; entity_id;
                payload_json].

(** The world a command runs in: the database and the text files. *)
Record World := { events : list Row; files : gmap (list N) (list N) }.

(** What [send_email] reads and talks to: [os.environ], the builtin [int],
    and the whole exchange with the SMTP server ([None]: delivered). *)
Record Mailer := {
  environ : gmap (list N) (list N);
  int : list N -> option Z;
  smtp : list N -> Z -> list N -> list N -> list N -> list N ->
         list N -> list N -> option exn
}.

(** Python truthiness of an optional string. *)
Definition truthy (o : option (list N)) : bool :=
  match o with
  | Some (_ :: _) => true
  | _ => false
  end.

(** ** ledger.py *)
Module Ledger.
Definition GENESIS_HASH : list N := u "GENESIS".

Definition canonical_json (obj : json) : list N :=
  json_dumps false true (u ",") (u ":") obj.

Definition sha256_hex (s : list N) : list N :=
  SHA256.hexdigest (utf8_encode s).

Definition env (environ : gmap (list N) (list N)) (name : list N)
    (default : option (list N)) : option (list N) :=
  match environ !! name with
  | Some v => if decide (strip v = []) then default else Some v
  | None => default
  end.

Definition write_anchor_files (anchor_file anchor_history latest_hash note
    created_at : list N) (fs : gmap (list N) (list N)) : gmap (list N) (list N) :=
  let fs1 := <[anchor_file :=
                 u "latest_hash=" ++ latest_hash ++ [10%N] ++
                 u "timestamp=" ++ created_at ++ [10%N] ++
                 u "note=" ++ note ++ [10%N]]> fs in
  <[anchor_history :=
      default [] (fs1 !! anchor_history) ++
      created_at ++ u " | " ++ latest_hash ++ u " | " ++ note ++ [10%N]]> fs1.

(** The body of the loop of [read_anchor_file] on one line. *)
Definition take_line (data : gmap (list N) (list N)) (line : list N)
    : gmap (list N) (list N) :=
  let line := strip line in
  match split1 61 line with
  | Some (k, v) => <[strip k := strip v]> data
  | None => data
  end.

Definition read_anchor_file (anchor_file : list N)
    (fs : gmap (list N) (list N)) : exn + gmap (list N) (list N) :=
  match fs !! anchor_file with
  | None => inl (ValueError (AnchorNotFound anchor_file))
  | Some text =>
      inr (List.fold_left take_line (readlines (universal_newlines text)) ∅)
  end.

Definition get_last_event_hash (conn : list Row) : list N :=
  match select_order_by_created_at_desc conn with
  | row :: _ => event_hash row
  | [] => GENESIS_HASH
  end.

(** [new_uuid] is the value [uuid4] hands out for this call. *)
Definition append_event (new_uuid : list N) (event_type entity_type entity_id
    created_at : list N) (payload : json) (conn : list Row)
    : (exn + list N) * list Row :=
  let prev_hash := get_last_event_hash conn in
  let payload_json := canonical_json payload in
  let material := join (u "|") [prev_hash; created_at; event_type; entity_type;
                                entity_id; payload_json] in
  let event_hash := sha256_hex material in
  match insert_event (Event new_uuid created_at event_type entity_type entity_id
                            payload_json prev_hash event_hash) conn with
  | (inl e, conn') => (inl e, conn')
  | (inr _, conn') => (inr event_hash, conn')
  end.

(** The loop of [verify_chain]; [idx] counts from 1. *)
Fixpoint verify_loop (prev : list N) (idx : nat) (events : list Row)
    : exn + list N :=
  match events with
  | [] => inr prev
  | e :: rest =>
      if decide (prev_hash e = prev) then
        let material := join (u "|") [prev_hash e; created_at e; event_type e;
                                      entity_type e; entity_id e; payload_json e] in
        let expected := sha256_hex material in
        if decide (expected = event_hash e)
        then verify_loop (event_hash e) (S idx) rest
        else inl (ValueError (TamperDetected idx))
      else inl (ValueError (ChainBroken idx))
  end.

Definition verify_chain (db : list Row) : exn + list N :=
  match select_order_by_created_at_asc db with
  | [] => inr GENESIS_HASH
  | events => verify_loop GENESIS_HASH 1 events
  end.

Definition verify_anchor (db : list Row) (anchor_file : list N)
    (fs : gmap (list N) (list N)) : exn + unit :=
  match verify_chain db with
  | inl e => inl e
  | inr db_last =>
      match read_anchor_file anchor_file fs with
      | inl e => inl e
      | inr data =>
          let anchored := data !! u "latest_hash" in
          if truthy anchored then
            if decide (Some db_last = anchored) then inr tt
            else inl (ValueError (AnchorMismatch db_last (default [] anchored)))
          else inl (ValueError AnchorMissingLatestHash)
      end
  end.

Definition send_email (m : Mailer) (subject body : list N) : exn + unit :=
  let host := env (environ m) (u "LEDGER_SMTP_HOST") None in
  let user := env (environ m) (u "LEDGER_SMTP_USER") None in
  let pwd := env (environ m) (u "LEDGER_SMTP_PASS") None in
  let mail_from := env (environ m) (u "LEDGER_EMAIL_FROM") None in
  let mail_to := env (environ m) (u "LEDGER_EMAIL_TO") None in
  match env (environ m) (u "LEDGER_SMTP_PORT") (Some (u "587")) with
  | None => inl TypeError
  | Some port_text =>
      match int m port_text with
      | None => inl (ValueError (InvalidInt port_text))
      | Some port =>
          if truthy host && truthy user && truthy pwd && truthy mail_from
             && truthy mail_to
          then match smtp m (default [] host) port (default [] user)
                       (default [] pwd) (default [] mail_from)
                       (default [] mail_to) subject body with
               | Some e => inl e
               | None => inr tt
               end
          else inl (ValueError MissingSMTP)
      end
  end.

(** The three values [daily_publish] builds on its way: the note of
    step 2, and the payload and the subject of step 4. *)
Definition publish_note (date label : list N) : list N :=
  strip (u "DAILY_ANCHOR " ++ date ++ u " " ++ label).

Definition publish_payload (date label ts last_hash anchor_file
    anchor_history : list N) : json :=
  JDict [ (u "type", JStr (u "daily_anchor"));
          (u "date_utc", JStr date);
          (u "label", JStr label);
          (u "timestamp", JStr ts);
          (u "latest_hash", JStr last_hash);
          (u "anchor_file", JStr anchor_file);
          (u "anchor_history", JStr anchor_history) ].

Definition publish_subject (date last_hash : list N) : list N :=
  u "History Anchor " ++ date ++ u " " ++ List.firstn 12 last_hash.

(** [ts] is what [utc_now_iso] returns, [date_note] and [date_payload]
    what the two calls of [today_utc] return. *)
Definition daily_publish (m : Mailer) (ts date_note date_payload : list N)
    (anchor_file anchor_history label : list N) (w : World)
    : (exn + unit) * World :=
  match verify_chain (events w) with
  | inl e => (inl e, w)
  | inr last_hash =>
      let note := publish_note date_note label in
      let w1 := {| events := events w;
                   files := write_anchor_files anchor_file anchor_history
                              last_hash note ts (files w) |} in
      match verify_anchor (events w1) anchor_file (files w1) with
      | inl e => (inl e, w1)
      | inr _ =>
          let payload := publish_payload date_payload label ts last_hash
                           anchor_file anchor_history in
          let subject := publish_subject date_payload last_hash in
          let body := canonical_json payload in
          match send_email m subject body with
          | inl e => (inl e, w1)
          | inr _ => (inr tt, w1)
          end
      end
  end.
End Ledger.

(** ** ai_layer.py *)
Module AiLayer.
Definition GENESIS_HASH : list N := u "GENESIS".

Definition canonical_json (obj : json) : list N :=
  json_dumps false true (u ",") (u ":") obj.

Definition sha256_hex (s : list N) : list N :=
  SHA256.hexdigest (utf8_encode s).

Definition write_anchor_files (anchor_file anchor_history latest_hash note
    created_at : list N) (fs : gmap (list N) (list N)) : gmap (list N) (list N) :=
  let fs1 := <[anchor_file :=
                 u "latest_hash=" ++ latest_hash ++ [10%N] ++
                 u "timestamp=" ++ created_at ++ [10%N] ++
                 u "note=" ++ note ++ [10%N]]> fs in
  <[anchor_history :=
      default [] (fs1 !! anchor_history) ++
      created_at ++ u " | " ++ latest_hash ++ u " | " ++ note ++ [10%N]]> fs1.

Definition get_last_event_hash (conn : list Row) : list N :=
  match select_order_by_created_at_desc conn with
  | row :: _ => event_hash row
  | [] => GENESIS_HASH
  end.

Definition append_event (new_uuid : list N) (event_type entity_type entity_id
    created_at : list N) (payload : json) (conn : list Row)
    : (exn + list N) * list Row :=
  let prev_hash := get_last_event_hash conn in
  let payload_json := canonical_json payload in
  let material := join (u "|") [prev_hash; created_at; event_type; entity_type;
                                entity_id; payload_json] in
  let event_hash := sha256_hex material in
  match insert_event (Event new_uuid created_at event_type entity_type entity_id
                            payload_json prev_hash event_hash) conn with
  | (inl e, conn') => (inl e, conn')
  | (inr _, conn') => (inr event_hash, conn')
  end.
(** The loop of [verify_chain]; [i] counts from 1. *)
Fixpoint verify_loop (prev : list N) (i : nat) (events : list Row)
    : exn + list N :=
  match events with
  | [] => inr prev
  | e :: rest =>
      if decide (prev_hash e = prev) then
        let material := join (u "|") [prev_hash e; created_at e; event_type e;
                                      entity_type e; entity_id e; payload_json e] in
        let expected := sha256_hex material in
        if decide (expected = event_hash e)
        then verify_loop (event_hash e) (S i) rest
        else inl (ValueError (TamperDetected i))
      else inl (ValueError (ChainBroken i))
  end.

Definition verify_chain (conn : list Row) : exn + list N :=
  match select_order_by_created_at_asc conn with
  | [] => inr GENESIS_HASH
  | events => verify_loop GENESIS_HASH 1 events
  end.

(** A row of the table [memories]; the scripts that insert without a
    [memory_id] leave it NULL. *)
Record Memory := Mem {
  memory_id : option (list N);
  memory_created_at : list N;
  category : list N;
  text : list N
}.

(** [INSERT INTO memories ...]: [memory_id] is the primary key, and NULL
    never collides. *)
Definition insert_memory (r : Memory) (t : list Memory)
    : (exn + unit) * list Memory :=
  if match memory_id r with
     | Some _ => List.existsb (fun x => bool_decide (memory_id x = memory_id r)) t
     | None => false
     end
  then (inl IntegrityError, t)
  else (inr tt, t ++ [r]).

(** What [remember] works on: the two tables and the text files. *)
Record Store := {
  db_events : list Row;
  db_memories : list Memory;
  fs : gmap (list N) (list N)
}.

(** [created_at] is what [utc_now_iso] returns, [memory_id] and
    [event_uuid] what the two calls of [new_uuid] return.  Both inserts
    run in one transaction: an exception leaves through [finally], which
    closes the connection without a commit, so neither row is kept and
    the anchor files are not reached.  The anchor files are written after
    the commit; their writes are taken to succeed, as everywhere in this
    file. *)
Definition remember (created_at memory_id event_uuid : list N)
    (anchor_file anchor_history category text : list N) (w : Store)
    : (exn + list N) * Store :=
  match insert_memory (Mem (Some memory_id) created_at category text)
                      (db_memories w) with
  | (inl e, _) => (inl e, w)
  | (inr _, memories') =>
      match append_event event_uuid (u "memory.add") (u "memory") memory_id
              created_at
              (JDict [ (u "memory_id", JStr memory_id);
                       (u "created_at", JStr created_at);
                       (u "category", JStr category);
                       (u "text", JStr text) ])
              (db_events w) with
      | (inl e, _) => (inl e, w)
      | (inr latest_hash, events') =>
          (inr memory_id,
           {| db_events := events';
              db_memories := memories';
              fs := write_anchor_files anchor_file anchor_history latest_hash
                      (u "memory.add " ++ category ++ u " " ++ memory_id)
                      created_at (fs w) |})
      end
  end.
End AiLayer.

(** ** finalize.py *)
Module Finalize.
Definition ANCHOR_FILE : list N := u "ANCHOR.txt".


(** [Path.read_text]: the text as read in text mode. *)
Definition read_text (path : list N) (fs : gmap (list N) (list N))
    : option (list N) :=
  universal_newlines <$> fs !! path.

Definition read_prev_anchor (fs : gmap (list N) (list N)) : exn + list N :=
  match read_text ANCHOR_FILE fs with
  | None => inr (u "GENESIS")
  | Some text =>
      let content := strip text in
      match content with
      | [] => inr (u "GENESIS")
      | _ =>
          match List.find (fun line => startswith (strip line) (u "latest_hash="))
                          (splitlines content) with
          | Some line =>
              match split1 61 (strip line) with
              | Some (_, v) => inr (strip v)
              | None => inl IndexError
              end
          | None =>
              match splitlines content with
              | first :: _ => inr (strip first)
              | [] => inl IndexError
              end
          end
      end
  end.


(** [now] is what [now_utc_iso] returns. *)
Definition write_anchor_file (now new_hash note : list N)
    (fs : gmap (list N) (list N)) : gmap (list N) (list N) :=
  <[ANCHOR_FILE :=
      u "latest_hash=" ++ new_hash ++ [10%N] ++
      u "timestamp=" ++ now ++ [10%N] ++
      u "note=" ++ note ++ [10%N]]> fs.

End Finalize.

(** ** Sequences of appends and single-column edits *)

(** One call of [append_event]: the identifier [uuid4] hands out and the
    caller's arguments. *)
Record Call := {
  call_uuid : list N;
  call_event_type : list N;
  call_entity_type : list N;
  call_entity_id : list N;
  call_created_at : list N;
  call_payload : json
}.

(** What the caller passes, without the identifier drawn inside. *)
Definition call_input (c : Call) :=
  (call_event_type c, call_entity_type c, call_entity_id c,
   call_created_at c, call_payload c).

(** The calls made one after the other on the same connection; the first
    exception ends the run.  Returns the hashes handed back. *)
Fixpoint append_events
    (append : list N -> list N -> list N -> list N -> list N -> json ->
              list Row -> (exn + list N) * list Row)
    (calls : list Call) (conn : list Row) : (exn + list (list N)) * list Row :=
  match calls with
  | [] => (inr [], conn)
  | c :: rest =>
      match append (call_uuid c) (call_event_type c) (call_entity_type c)
                   (call_entity_id c) (call_created_at c) (call_payload c) conn with
      | (inl e, conn') => (inl e, conn')
      | (inr h, conn') =>
          match append_events append rest conn' with
          | (inl e, conn'') => (inl e, conn'')
          | (inr hs, conn'') => (inr (h :: hs), conn'')
          end
      end
  end.

(** Timestamps that never go back. *)
Fixpoint nondecreasing (l : list (list N)) : bool :=
  match l with
  | a :: (b :: _) as rest => str_leb a b && nondecreasing rest
  | _ => true
  end.

Inductive Column :=
| col_event_id | col_created_at | col_event_type | col_entity_type
| col_entity_id | col_payload_json | col_prev_hash | col_event_hash.

Definition column (c : Column) (r : Row) : list N :=
  match c with
  | col_event_id => event_id r
  | col_created_at => created_at r
  | col_event_type => event_type r
  | col_entity_type => entity_type r
  | col_entity_id => entity_id r
  | col_payload_json => payload_json r
  | col_prev_hash => prev_hash r
  | col_event_hash => event_hash r
  end.

(** The row after [UPDATE ledger_events SET c = v] on it. *)
Definition set_column (c : Column) (v : list N) (r : Row) : Row :=
  match c with
  | col_event_id => Event v (created_at r) (event_type r) (entity_type r)
                      (entity_id r) (payload_json r) (prev_hash r) (event_hash r)
  | col_created_at => Event (event_id r) v (event_type r) (entity_type r)
                      (entity_id r) (payload_json r) (prev_hash r) (event_hash r)
  | col_event_type => Event (event_id r) (created_at r) v (entity_type r)
                      (entity_id r) (payload_json r) (prev_hash r) (event_hash r)
  | col_entity_type => Event (event_id r) (created_at r) (event_type r) v
                      (entity_id r) (payload_json r) (prev_hash r) (event_hash r)
  | col_entity_id => Event (event_id r) (created_at r) (event_type r)
                      (entity_type r) v (payload_json r) (prev_hash r) (event_hash r)
  | col_payload_json => Event (event_id r) (created_at r) (event_type r)
                      (entity_type r) (entity_id r) v (prev_hash r) (event_hash r)
  | col_prev_hash => Event (event_id r) (created_at r) (event_type r)
                      (entity_type r) (entity_id r) (payload_json r) v (event_hash r)
  | col_event_hash => Event (event_id r) (created_at r) (event_type r)
                      (entity_type r) (entity_id r) (payload_json r) (prev_hash r) v
  end.

(** The text a row is hashed from. *)
Definition row_material (r : Row) : list N :=
  material (prev_hash r) (created_at r) (event_type r) (entity_type r)
           (entity_id r) (payload_json r).

(** A string without LF and CR. *)
Definition one_line (s : list N) : bool :=
  List.forallb (fun c => negb ((c =? 10) || (c =? 13))%N) s.

(** A string without any white space. *)
Definition no_space (s : list N) : bool :=
  List.forallb (fun c => negb (isspace c)) s.

(** A string in which the character [x] does not occur. *)
Definition no_char (x : N) (s : list N) : bool :=
  List.forallb (fun c => negb (c =? x)%N) s.

(** The three lines both anchor writers put into the anchor file. *)
Definition anchor_text (latest_hash timestamp note : list N) : list N :=
  u "latest_hash=" ++ latest_hash ++ [10%N] ++
  u "timestamp=" ++ timestamp ++ [10%N] ++
  u "note=" ++ note ++ [10%N].

(** One entry of the anchor history, with its line end. *)
Definition history_entry (timestamp latest_hash note : list N) : list N :=
  timestamp ++ u " | " ++ latest_hash ++ u " | " ++ note ++ [10%N].

(** The hash of the last row in insertion order, [GENESIS] when none. *)
Definition tip (conn : list Row) : list N :=
  List.last (List.map event_hash conn) Ledger.GENESIS_HASH.

(** A row with its identifier blanked. *)
Definition erase_id (r : Row) : Row := set_column col_event_id [] r.

(** ** Sample data *)

(** A call with an empty payload. *)
Definition mk_call (id et ent eid ts : string) : Call :=
  {| call_uuid := u id; call_event_type := u et; call_entity_type := u ent;
     call_entity_id := u eid; call_created_at := u ts; call_payload := JDict [] |}.

(** Three appends in clock order, two within the same second. *)
Definition calls_in_order : list Call :=
  [ mk_call "id-1" "decision.create" "decision" "D-1" "2026-01-01T00:00:00Z";
    mk_call "id-2" "decision.create" "decision" "D-2" "2026-01-01T00:00:00Z";
    mk_call "id-3" "outcome.add" "outcome" "O-1" "2026-01-02T09:30:00Z" ].

(** Two appends, the second stamped a day before the first. *)
Definition calls_clock_back : list Call :=
  [ mk_call "id-1" "decision.create" "decision" "D-1" "2026-01-02T00:00:00Z";
    mk_call "id-2" "decision.create" "decision" "D-2" "2026-01-01T00:00:00Z" ].

(** The table after [calls_in_order]. *)
Definition sample_db : list Row :=
  snd (append_events Ledger.append_event calls_in_order []).

(** Its [k]-th row, counted from 0. *)
Definition sample_row (k : nat) : Row :=
  List.nth k sample_db (Event [] [] [] [] [] [] [] []).

(** The calls of [calls_in_order] under other identifiers. *)
Definition calls_other_ids : list Call :=
  [ mk_call "id-a" "decision.create" "decision" "D-1" "2026-01-01T00:00:00Z";
    mk_call "id-b" "decision.create" "decision" "D-2" "2026-01-01T00:00:00Z";
    mk_call "id-c" "outcome.add" "outcome" "O-1" "2026-01-02T09:30:00Z" ].

Definition path_anchor : list N := u "ANCHOR.txt".

Definition path_history : list N := u "ANCHOR_HISTORY.log".

Definition ts0 : list N := u "2026-01-01T00:00:00Z".

(** A file system holding one history entry and no anchor file. *)
Definition fs_with_history : gmap (list N) (list N) :=
  <[path_history := history_entry ts0 Ledger.GENESIS_HASH (u "init")]> ∅.

(** A process without any of the SMTP variables set. *)
Definition mailer_unconfigured : Mailer :=
  {| environ := ∅;
     int := fun _ => Some 587%Z;
     smtp := fun _ _ _ _ _ _ _ _ => None |}.

(** [sample_db] with the payload of its second row edited. *)
Definition world_tampered : World :=
  {| events := [sample_row 0;
                set_column col_payload_json (u "{}x") (sample_row 1);
                sample_row 2];
     files := fs_with_history |}.

Definition world_sound : World :=
  {| events := sample_db; files := fs_with_history |}.

(** A digest to stand for a legacy anchor. *)
Definition hex_abc : list N := Ledger.sha256_hex (u "abc").




(** The table after [calls_clock_back]. *)
Definition db_after_clock_back : list Row :=
  snd (append_events Ledger.append_event calls_clock_back []).

(** ** More of the code *)

(** A row that carries the digest of its own columns. *)
Definition hash_ok (r : Row) : Prop :=
  Ledger.sha256_hex (row_material r) = event_hash r.

(** [DELETE FROM ledger_events WHERE NOT keep]: the rows that stay, in
    rowid order. *)
Definition delete_unless (keep : Row -> bool) (t : list Row) : list Row :=
  List.filter keep t.

(** A lower-case hexadecimal digit. *)
Definition is_hex (c : N) : bool :=
  ((48 <=? c) && (c <=? 57) || (97 <=? c) && (c <=? 102))%N.

(** [sub in s] *)
Fixpoint contains (sub s : list N) : bool :=
  match s with
  | [] => match sub with [] => true | _ => false end
  | _ :: r => startswith s sub || contains sub r
  end.

(** [s.split(sep)] for a non-empty [sep]: the text is cut at every
    occurrence of [sep], found from left to right without overlap;
    [skip] counts the characters of an occurrence still to pass. *)
Fixpoint split_from (sep : list N) (skip : nat) (s : list N) : list (list N) :=
  match s with
  | [] => [[]]
  | c :: r =>
      match skip with
      | S k => split_from sep k r
      | O =>
          if startswith s sep then [] :: split_from sep (List.length sep - 1) r
          else match split_from sep 0 r with
               | l :: ls => (c :: l) :: ls
               | [] => [[c]]
               end
      end
  end.

Definition split (sep s : list N) : list (list N) := split_from sep 0 s.

(** [l[i]], an [IndexError] out of range. *)
Definition index {A : Type} (l : list A) (i : nat) : exn + A :=
  match List.nth_error l i with
  | Some x => inr x
  | None => inl IndexError
  end.

(** ** warn.py (the same three parsers stand in review_decision.py and
    harm_report.py) *)
Module Warn.
Definition parse_type (decision_text : list N) : exn + option (list N) :=
  if negb (contains (u "Type:") decision_text) then inr None
  else
    match index (split (u "Type:") decision_text) 1 with
    | inl e => inl e
    | inr part =>
        match index (split (u "|") part) 0 with
        | inl e => inl e
        | inr first => inr (Some (strip first))
        end
    end.

Definition parse_decision_id (decision_text : list N) : exn + list N :=
  match index (split (u "|") decision_text) 0 with
  | inl e => inl e
  | inr first => inr (strip first)
  end.

Definition parse_harms (outcome_text : list N) : exn + list (list N) :=
  if negb (contains (u "Harm:") outcome_text) then inr []
  else
    match index (split (u "Harm:") outcome_text) 1 with
    | inl e => inl e
    | inr harms_part =>
        match (if contains (u "|") harms_part
               then index (split (u "|") harms_part) 0
               else inr harms_part) with
        | inl e => inl e
        | inr harms_part =>
            inr (List.map strip
                   (List.filter (fun h => match strip h with [] => false | _ => true end)
                      (split (u ",") harms_part)))
        end
    end.
End Warn.

(** ** harm_report.py *)
Module HarmReport.
Definition parse_outcome_id (outcome_text : list N) : exn + option (list N) :=
  match index (split (u "|") outcome_text) 0 with
  | inl e => inl e
  | inr first =>
      let first := strip first in
      if startswith first (u "O-") then inr (Some first) else inr None
  end.
End HarmReport.

(** ** demo_report.py *)
Module DemoReport.
Definition ANCHOR_FILE : list N := u "ANCHOR.txt".

(** [Path.read_text]: the text as read in text mode. *)
Definition read_text (path : list N) (fs : gmap (list N) (list N))
    : option (list N) :=
  universal_newlines <$> fs !! path.

Definition read_latest_hash (fs : gmap (list N) (list N)) : exn + list N :=
  match read_text ANCHOR_FILE fs with
  | None => inr (u "(no anchor yet)")
  | Some text =>
      let content := strip text in
      match content with
      | [] => inr (u "(no anchor yet)")
      | _ =>
          match List.find (fun line => startswith line (u "latest_hash="))
                          (splitlines content) with
          | Some line =>
              match split1 61 line with
              | Some (_, v) => inr (strip v)
              | None => inl IndexError
              end
          | None =>
              match splitlines content with
              | first :: _ => inr (strip first)
              | [] => inl IndexError
              end
          end
      end
  end.
End DemoReport.

(** The five variables [send_email] cannot do without. *)
Definition smtp_required : list (list N) :=
  [u "LEDGER_SMTP_HOST"; u "LEDGER_SMTP_USER"; u "LEDGER_SMTP_PASS";
   u "LEDGER_EMAIL_FROM"; u "LEDGER_EMAIL_TO"].

(** The text [send_email] hands to [int] for the port. *)
Definition smtp_port_text (m : Mailer) : list N :=
  default (u "587") (Ledger.env (environ m) (u "LEDGER_SMTP_PORT") (Some (u "587"))).

(** Ordered by key, every record before all later ones. *)
Definition key_le {A : Type} (key : A -> list N) (x y : A) : Prop :=
  str_leb (key x) (key y) = true.

(** ** More sample data *)

(** The rows other than the one with the given identifier. *)
Definition keep_all_but (id : string) (r : Row) : bool :=
  negb (bool_decide (event_id r = u id)).

(** The calls of [calls_clock_back] with the second one made again. *)
Definition calls_repeat : list Call :=
  calls_clock_back ++
  [ mk_call "id-3" "decision.create" "decision" "D-2" "2026-01-01T00:00:00Z" ].

(** A process with all six SMTP variables set and a server that takes
    the mail. *)
Definition mailer_configured : Mailer :=
  {| environ := <[u "LEDGER_SMTP_HOST" := u "smtp.example.org"]>
                (<[u "LEDGER_SMTP_USER" := u "ledger"]>
                (<[u "LEDGER_SMTP_PASS" := u "secret"]>
                (<[u "LEDGER_EMAIL_FROM" := u "ledger@example.org"]>
                (<[u "LEDGER_EMAIL_TO" := u "audit@example.org"]>
                (<[u "LEDGER_SMTP_PORT" := u "2525"]> ∅)))));
     int := fun s => if decide (s = u "2525") then Some 2525%Z
                     else if decide (s = u "587") then Some 587%Z else None;
     smtp := fun _ _ _ _ _ _ _ _ => None |}.

(** A process with a port that is no number and nothing else set. *)
Definition mailer_bad_port : Mailer :=
  {| environ := <[u "LEDGER_SMTP_PORT" := u "smtp"]> ∅;
     int := fun s => if decide (s = u "587") then Some 587%Z else None;
     smtp := fun _ _ _ _ _ _ _ _ => None |}.

(** * Checks of the library models against known values *)

Example sha256_empty :
  SHA256.hexdigest (utf8_encode []) =
  u "e3b0c44298fc1c149afbf4c8996fb92427ae41e4649b934ca495991b7852b855".
Proof. vm_compute. reflexivity. Qed.

Example sha256_abc :
  SHA256.hexdigest (utf8_encode (u "abc")) =
  u "ba7816bf8f01cfea414140de5dae2223b00361a396177a9cb410ff61f20015ad".
Proof. vm_compute. reflexivity. Qed.

Example sha256_two_blocks :
  SHA256.hexdigest (utf8_encode
    (u "abcdbcdecdefdefgefghfghighijhijkijkljklmklmnlmnomnopnopq")) =
  u "248d6a61d20638b8e5c026930c3e6039a33ce45964ff2167f6ecedd419db06c1".
Proof. vm_compute. reflexivity. Qed.

Example json_dumps_sample :
  json_dumps false true (u ",") (u ":")
    (JDict [ (u "b", JList [JInt 1; JInt (-2); JBool true; JNull;
                             JStr [120; 34; 92; 10; 1; 127; 233]%N]);
             (u "a", JDict []); (u "c", JList []) ]) =
  u "{" ++ dq ++ u "a" ++ dq ++ u ":{}," ++ dq ++ u "b" ++ dq ++
  u ":[1,-2,true,null," ++ dq ++ u "x\" ++ dq ++ u "\\\n\u0001" ++
  [127; 233]%N ++ dq ++ u "]," ++ dq ++ u "c" ++ dq ++ u ":[]}".
Proof. vm_compute. reflexivity. Qed.

Example splitlines_sample :
  splitlines [97; 13; 10; 98; 10; 10; 99; 10]%N = [[97]; [98]; []; [99]]%N
  /\ readlines (universal_newlines [97; 13; 98; 13; 10; 99; 10; 10; 100]%N)
     = [[97; 10]; [98; 10]; [99; 10]; [10]; [100]]%N.
Proof. split; reflexivity. Qed.

(** * Facts about strings *)

Lemma universal_newlines_id (s : list N) :
  no_char 13 s = true -> universal_newlines s = s.
Proof.
  unfold no_char. induction s as [|c s IH]; [reflexivity|].
  cbn [List.forallb universal_newlines]. intros H.
  apply andb_prop in H as [Hc Hs]. apply negb_true_iff in Hc. rewrite Hc.
  f_equal. exact (IH Hs).
Qed.

Lemma readlines_line (a rest : list N) :
  no_char 10 a = true ->
  readlines (a ++ 10%N :: rest) = (a ++ [10%N]) :: readlines rest.
Proof.
  unfold no_char. induction a as [|c a IH]; [reflexivity|].
  cbn [List.forallb app readlines]. intros H.
  apply andb_prop in H as [Hc Ha]. apply negb_true_iff in Hc. rewrite Hc.
  now rewrite (IH Ha).
Qed.

Lemma one_line_no_char (s : list N) :
  one_line s = true -> no_char 10 s = true /\ no_char 13 s = true.
Proof.
  unfold one_line, no_char.
  induction s as [|c s IH]; [split; reflexivity|].
  cbn [List.forallb]. intros H.
  apply andb_prop in H as [Hc Hs]. destruct (IH Hs) as [H1 H2].
  apply negb_true_iff, orb_false_elim in Hc as [Ha Hb].
  rewrite Ha, Hb, H1, H2. split; reflexivity.
Qed.

Lemma no_char_app (x : N) (a b : list N) :
  no_char x (a ++ b) = no_char x a && no_char x b.
Proof. apply List.forallb_app. Qed.

Lemma linebreak_isspace (c : N) : is_linebreak c = true -> isspace c = true.
Proof.
  unfold is_linebreak, isspace. intros H.
  repeat (apply orb_prop in H as [H|H]);
    repeat match goal with
    | H : (_ && _) = true |- _ => apply andb_prop in H as [? ?]
    | H : (_ <=? _)%N = true |- _ => apply N.leb_le in H
    | H : (_ =? _)%N = true |- _ => apply N.eqb_eq in H
    end.
  - replace (9 <=? c)%N with true by (symmetry; apply N.leb_le; lia).
    replace (c <=? 13)%N with true by (symmetry; apply N.leb_le; lia).
    reflexivity.
  - replace (28 <=? c)%N with true by (symmetry; apply N.leb_le; lia).
    replace (c <=? 32)%N with true by (symmetry; apply N.leb_le; lia).
    cbn. now rewrite orb_true_r.
  - subst c. reflexivity.
  - subst c. reflexivity.
  - subst c. reflexivity.
Qed.

Lemma no_space_one_line (s : list N) : no_space s = true -> one_line s = true.
Proof.
  unfold no_space, one_line. induction s as [|c s IH]; [reflexivity|].
  cbn [List.forallb]. intros H.
  apply andb_prop in H as [Hc Hs]. rewrite (IH Hs), andb_true_r.
  apply negb_true_iff in Hc. apply negb_true_iff.
  destruct (c =? 10)%N eqn:E10.
  { apply N.eqb_eq in E10. subst c. discriminate. }
  destruct (c =? 13)%N eqn:E13; [|reflexivity].
  apply N.eqb_eq in E13. subst c. discriminate.
Qed.

Lemma rstrip_no_space (s : list N) : no_space s = true -> rstrip s = s.
Proof.
  unfold no_space. induction s as [|c s IH]; [reflexivity|].
  cbn [List.forallb rstrip]. intros H.
  apply andb_prop in H as [Hc Hs]. apply negb_true_iff in Hc.
  rewrite (IH Hs), Hc. now destruct s.
Qed.

Lemma lstrip_no_space (s : list N) : no_space s = true -> lstrip s = s.
Proof.
  unfold no_space. destruct s as [|c s]; [reflexivity|].
  cbn [List.forallb lstrip]. intros H.
  apply andb_prop in H as [Hc _]. apply negb_true_iff in Hc. now rewrite Hc.
Qed.

Lemma strip_no_space (s : list N) : no_space s = true -> strip s = s.
Proof.
  intros H. unfold strip. now rewrite (lstrip_no_space s H), (rstrip_no_space s H).
Qed.

Lemma rstrip_app_space (s : list N) (c : N) :
  isspace c = true -> rstrip (s ++ [c]) = rstrip s.
Proof.
  intros Hc. induction s as [|x s IH]; cbn [app rstrip].
  - now rewrite Hc.
  - now rewrite IH.
Qed.

Lemma rstrip_prefix (p x : list N) :
  p <> [] -> rstrip p = p -> rstrip (p ++ x) = p ++ rstrip x.
Proof.
  induction p as [|c p IH]; [congruence|]. intros _ Hp.
  cbn [app rstrip] in *. destruct p as [|d p'].
  - cbn [app]. cbn [rstrip] in Hp. destruct (isspace c); [discriminate|].
    now destruct (rstrip x).
  - assert (Hp' : rstrip (d :: p') = d :: p').
    { destruct (rstrip (d :: p')) as [|y l] eqn:E.
      - destruct (isspace c); discriminate.
      - congruence. }
    rewrite (IH ltac:(discriminate) Hp'). reflexivity.
Qed.

Lemma lstrip_rstrip (s : list N) : lstrip (rstrip s) = rstrip (lstrip s).
Proof.
  induction s as [|c s IH]; [reflexivity|].
  cbn [rstrip lstrip]. destruct (isspace c) eqn:Hc.
  - rewrite <- IH. destruct (rstrip s) as [|y l]; [reflexivity|].
    cbn [lstrip]. now rewrite Hc.
  - cbn [rstrip]. rewrite Hc. destruct (rstrip s) as [|y l]; cbn [lstrip]; now rewrite Hc.
Qed.

Lemma rstrip_idem (s : list N) : rstrip (rstrip s) = rstrip s.
Proof.
  induction s as [|c s IH]; [reflexivity|].
  cbn [rstrip]. destruct (rstrip s) as [|y l] eqn:E.
  - destruct (isspace c) eqn:Hc; [reflexivity|]. cbn. now rewrite Hc.
  - cbn [rstrip]. cbn [rstrip] in IH. now rewrite IH.
Qed.

Lemma strip_rstrip (s : list N) : strip (rstrip s) = strip s.
Proof. unfold strip. now rewrite lstrip_rstrip, rstrip_idem. Qed.

Lemma split1_found (sep : N) (k v : list N) :
  no_char sep k = true -> split1 sep (k ++ sep :: v) = Some (k, v).
Proof.
  unfold no_char. induction k as [|c k IH]; cbn [List.forallb app split1].
  - now rewrite N.eqb_refl.
  - intros H. apply andb_prop in H as [Hc Hk]. apply negb_true_iff in Hc.
    now rewrite Hc, (IH Hk).
Qed.

Lemma split1_none (sep : N) (s : list N) :
  no_char sep s = true -> split1 sep s = None.
Proof.
  unfold no_char. induction s as [|c s IH]; [reflexivity|]. cbn [List.forallb split1].
  intros H. apply andb_prop in H as [Hc Hs]. apply negb_true_iff in Hc.
  now rewrite Hc, (IH Hs).
Qed.

Lemma no_char_lstrip (x : N) (s : list N) :
  no_char x s = true -> no_char x (lstrip s) = true.
Proof.
  unfold no_char. induction s as [|c s IH]; [reflexivity|]. intros H. cbn [lstrip].
  destruct (isspace c); [|exact H].
  cbn [List.forallb] in H. apply andb_prop in H as [_ H]. exact (IH H).
Qed.

Lemma no_char_rstrip (x : N) (s : list N) :
  no_char x s = true -> no_char x (rstrip s) = true.
Proof.
  unfold no_char. induction s as [|c s IH]; [reflexivity|]. cbn [List.forallb rstrip].
  intros H. apply andb_prop in H as [Hc Hs]. specialize (IH Hs).
  destruct (rstrip s) as [|y l].
  - destruct (isspace c); [reflexivity|]. cbn. now rewrite Hc.
  - cbn [List.forallb] in *. now rewrite Hc, IH.
Qed.

Lemma no_char_strip (x : N) (s : list N) :
  no_char x s = true -> no_char x (strip s) = true.
Proof. intros H. unfold strip. now apply no_char_rstrip, no_char_lstrip. Qed.

Lemma take_line_key_value (data : gmap (list N) (list N)) (k x : list N) :
  k <> [] -> no_space k = true -> no_char 61 k = true ->
  Ledger.take_line data (k ++ 61%N :: x ++ [10%N]) = <[k := strip x]> data.
Proof.
  intros Hne Hsp Heq. unfold Ledger.take_line.
  assert (Hstrip : strip (k ++ 61%N :: x ++ [10%N]) = k ++ 61%N :: rstrip x).
  { unfold strip. destruct k as [|c k']; [congruence|].
    assert (Hc : isspace c = false).
    { unfold no_space in Hsp. cbn [List.forallb] in Hsp.
      apply andb_prop in Hsp as [Hc _]. now apply negb_true_iff in Hc. }
    cbn [app lstrip]. rewrite Hc.
    replace (c :: k' ++ 61%N :: x ++ [10%N])
      with (((c :: k') ++ [61%N]) ++ (x ++ [10%N]))
      by now rewrite <- app_assoc.
    rewrite rstrip_prefix.
    - rewrite rstrip_app_space by reflexivity. now rewrite <- app_assoc.
    - discriminate.
    - apply rstrip_no_space. unfold no_space. rewrite List.forallb_app.
      fold (no_space (c :: k')). now rewrite Hsp. }
  rewrite Hstrip, (split1_found 61 k (rstrip x) Heq).
  now rewrite (strip_no_space k Hsp), strip_rstrip.
Qed.

Lemma take_line_no_equals (data : gmap (list N) (list N)) (line : list N) :
  no_char 61 line = true -> Ledger.take_line data line = data.
Proof.
  intros H. unfold Ledger.take_line. now rewrite (split1_none 61 _ (no_char_strip 61 line H)).
Qed.

(** * Facts about the ordering of rows *)
Section OrderByFacts.
Context {A : Type} (key : A -> list N).

Lemma order_by_nondecreasing (l : list A) :
  nondecreasing (List.map key l) = true -> order_by key l = l.
Proof.
  induction l as [|x l IH]; [reflexivity|].
  intros H. cbn [order_by List.fold_right].
  change (List.fold_right (insert_by key) [] l) with (order_by key l).
  destruct l as [|y l'].
  - reflexivity.
  - cbn [List.map nondecreasing] in H.
    apply andb_prop in H as [Hxy Hrest].
    rewrite IH by exact Hrest.
    cbn [insert_by]. now rewrite Hxy.
Qed.

Lemma insert_by_same_key (x : A) (s : list A) :
  exists a b, forall x', key x' = key x -> insert_by key x' s = a ++ x' :: b.
Proof.
  induction s as [|y s IH].
  - exists [], []. reflexivity.
  - destruct (str_leb (key x) (key y)) eqn:E.
    + exists [], (y :: s). intros x' Hk. cbn [insert_by]. now rewrite Hk, E.
    + destruct IH as (a & b & IH). exists (y :: a), b. intros x' Hk.
      cbn [insert_by]. rewrite Hk, E. cbn. now rewrite (IH x' Hk).
Qed.

Lemma insert_by_around (y : A) (a : list A) (r : A) (b : list A) :
  exists a' b', forall r', key r' = key r ->
    insert_by key y (a ++ r' :: b) = a' ++ r' :: b'.
Proof.
  induction a as [|z a IH].
  - destruct (str_leb (key y) (key r)) eqn:E.
    + exists [y], b. intros r' Hk. cbn. now rewrite Hk, E.
    + exists [], (insert_by key y b). intros r' Hk. cbn. now rewrite Hk, E.
  - destruct (str_leb (key y) (key z)) eqn:E.
    + exists (y :: z :: a), b. intros r' Hk. cbn. now rewrite E.
    + destruct IH as (a' & b' & IH). exists (z :: a'), b'. intros r' Hk.
      cbn. rewrite E. now rewrite (IH r' Hk).
Qed.

(** Editing a row without touching its key leaves every row at its
    place in the ordered result. *)
Lemma order_by_edit (pre : list A) (r : A) (post : list A) :
  exists a b, forall r', key r' = key r ->
    order_by key (pre ++ r' :: post) = a ++ r' :: b.
Proof.
  induction pre as [|z pre IH].
  - destruct (insert_by_same_key r (order_by key post)) as (a & b & H).
    exists a, b. intros r' Hk. exact (H r' Hk).
  - destruct IH as (a & b & IH).
    destruct (insert_by_around z a r b) as (a' & b' & H).
    exists a', b'. intros r' Hk.
    cbn [app order_by List.fold_right].
    change (List.fold_right (insert_by key) [] (pre ++ r' :: post))
      with (order_by key (pre ++ r' :: post)).
    rewrite (IH r' Hk). exact (H r' Hk).
Qed.

Lemma order_by_map (g : A -> A) (l : list A) :
  (forall x, key (g x) = key x) ->
  order_by key (List.map g l) = List.map g (order_by key l).
Proof.
  intros Hg. induction l as [|x l IH]; [reflexivity|].
  cbn [List.map order_by List.fold_right].
  change (List.fold_right (insert_by key) [] (List.map g l))
    with (order_by key (List.map g l)).
  change (List.fold_right (insert_by key) [] l) with (order_by key l).
  rewrite IH. generalize (order_by key l). intros s.
  induction s as [|y s IHs]; [reflexivity|].
  cbn [insert_by List.map]. rewrite !Hg.
  destruct (str_leb (key x) (key y)); [reflexivity|].
  cbn [List.map]. now rewrite IHs.
Qed.

Lemma In_insert_by (x y : A) (s : list A) :
  List.In y (insert_by key x s) <-> y = x \/ List.In y s.
Proof.
  induction s as [|z s IH]; cbn [insert_by].
  - cbn. intuition.
  - destruct (str_leb (key x) (key z)); cbn [List.In] in *; [intuition|].
    rewrite IH. intuition.
Qed.

Lemma In_order_by (y : A) (l : list A) :
  List.In y (order_by key l) <-> List.In y l.
Proof.
  induction l as [|x l IH]; [reflexivity|].
  cbn [order_by List.fold_right]. rewrite In_insert_by.
  change (List.fold_right (insert_by key) [] l) with (order_by key l).
  rewrite IH. cbn. intuition.
Qed.
End OrderByFacts.

(** * The chain built by [append_event] *)

Lemma last_cons_default {A : Type} (l : list A) :
  forall (x d : A), List.last (x :: l) d = List.last l x.
Proof.
  induction l as [|y l IH]; intros x d; [reflexivity|].
  change (List.last (y :: l) d = List.last (y :: l) x).
  now rewrite !IH.
Qed.

Lemma verify_loop_app (p : list N) (i : nat) (a b : list Row) :
  Ledger.verify_loop p i (a ++ b) =
  match Ledger.verify_loop p i a with
  | inl e => inl e
  | inr p' => Ledger.verify_loop p' (i + List.length a) b
  end.
Proof.
  revert p i. induction a as [|e a IH]; intros p i.
  - cbn. now rewrite Nat.add_0_r.
  - cbn [app Ledger.verify_loop List.length].
    destruct (decide (prev_hash e = p)); [|reflexivity].
    destruct (decide (_ = event_hash e)); [|reflexivity].
    rewrite IH. now replace (S i + List.length a)%nat with (i + S (List.length a))%nat by lia.
Qed.

Lemma verify_chain_loop (db : list Row) :
  Ledger.verify_chain db =
  Ledger.verify_loop Ledger.GENESIS_HASH 1 (select_order_by_created_at_asc db).
Proof.
  unfold Ledger.verify_chain. now destruct (select_order_by_created_at_asc db).
Qed.

Lemma last_hash_of_ordered (conn : list Row) :
  nondecreasing (List.map created_at conn) = true ->
  Ledger.get_last_event_hash conn = tip conn.
Proof.
  intros H. unfold Ledger.get_last_event_hash, select_order_by_created_at_desc, tip.
  rewrite (order_by_nondecreasing created_at conn H).
  destruct conn as [|r conn' _] using rev_ind; [reflexivity|].
  rewrite rev_app_distr, List.map_app. cbn [List.rev app List.map].
  now rewrite last_last.
Qed.

Lemma nondecreasing_app_l (a b : list (list N)) :
  nondecreasing (a ++ b) = true -> nondecreasing a = true.
Proof.
  induction a as [|x a IH]; [reflexivity|].
  destruct a as [|y a']; [reflexivity|].
  cbn [app nondecreasing]. intros H. apply andb_prop in H as [H1 H2].
  rewrite H1. exact (IH H2).
Qed.

Lemma insert_event_inr (r : Row) (conn conn' : list Row) (x : unit) :
  insert_event r conn = (inr x, conn') -> conn' = conn ++ [r].
Proof.
  unfold insert_event. destruct (_ || _); intros H; now inversion H.
Qed.

Lemma insert_event_inl (r : Row) (conn conn' : list Row) (e : exn) :
  insert_event r conn = (inl e, conn') -> e = IntegrityError /\ conn' = conn.
Proof.
  unfold insert_event. destruct (_ || _); intros H; now inversion H.
Qed.

Lemma append_event_inr (id et ent eid ts : list N) (p : json)
    (conn conn' : list Row) (h : list N) :
  Ledger.append_event id et ent eid ts p conn = (inr h, conn') ->
  h = Ledger.sha256_hex (material (Ledger.get_last_event_hash conn) ts et ent eid
                                  (Ledger.canonical_json p))
  /\ conn' = conn ++ [Event id ts et ent eid (Ledger.canonical_json p)
                            (Ledger.get_last_event_hash conn) h].
Proof.
  unfold Ledger.append_event.
  destruct (insert_event _ conn) as [[e|[]] c] eqn:E; intros H; inversion H; subst.
  split; [reflexivity|]. now apply insert_event_inr in E.
Qed.

Lemma append_events_chain (calls : list Call) :
  forall (conn conn' : list Row) (hs : list (list N)),
  nondecreasing (List.map created_at conn ++ List.map call_created_at calls) = true ->
  Ledger.verify_loop Ledger.GENESIS_HASH 1 conn = inr (tip conn) ->
  append_events Ledger.append_event calls conn = (inr hs, conn') ->
  nondecreasing (List.map created_at conn') = true
  /\ Ledger.verify_loop Ledger.GENESIS_HASH 1 conn' = inr (tip conn')
  /\ tip conn' = List.last hs (tip conn).
Proof.
  induction calls as [|c calls IH]; intros conn conn' hs Hts Hok Hrun.
  - cbn in Hrun. inversion Hrun; subst. rewrite app_nil_r in Hts. auto.
  - cbn [append_events] in Hrun.
    destruct (Ledger.append_event _ _ _ _ _ _ conn) as [[e|h] c1] eqn:E1; [inversion Hrun|].
    destruct (append_events _ calls c1) as [[e|hs'] c2] eqn:E2; inversion Hrun; subst.
    apply append_event_inr in E1 as [Hh Hc1].
    assert (Hsorted : nondecreasing (List.map created_at conn) = true)
      by exact (nondecreasing_app_l _ _ Hts).
    rewrite (last_hash_of_ordered conn Hsorted) in Hh, Hc1.
    assert (Htip1 : tip c1 = h).
    { subst c1. unfold tip. rewrite List.map_app. cbn [List.map event_hash].
      now rewrite last_last. }
    destruct (IH c1 conn' hs') as (H1 & H2 & H3).
    + subst c1. rewrite List.map_app, <- app_assoc. exact Hts.
    + rewrite Htip1. rewrite Hc1 at 1. rewrite verify_loop_app, Hok.
      cbn [Ledger.verify_loop prev_hash created_at event_type entity_type
           entity_id payload_json event_hash].
      rewrite decide_True by reflexivity.
      rewrite decide_True by (symmetry; exact Hh). reflexivity.
    + exact E2.
    + split; [exact H1|]. split; [exact H2|].
      rewrite H3, Htip1. symmetry. apply last_cons_default.
Qed.

(** C1 (as amended).  When the [created_at] values of the calls never go
    back and every call of [append_event] on the initially empty table
    succeeds, [verify_chain] raises nothing and returns the hash handed
    back by the last call, [GENESIS] when there was no call. *)
Theorem C1_verify_after_appends (calls : list Call) (hs : list (list N))
    (conn' : list Row) :
  nondecreasing (List.map call_created_at calls) = true ->
  append_events Ledger.append_event calls [] = (inr hs, conn') ->
  Ledger.verify_chain conn' = inr (List.last hs Ledger.GENESIS_HASH).
Proof.
  intros Hts Hrun.
  destruct (append_events_chain calls [] conn' hs Hts eq_refl Hrun) as (H1 & H2 & H3).
  rewrite verify_chain_loop. unfold select_order_by_created_at_asc.
  rewrite (order_by_nondecreasing created_at conn' H1), H2, H3. reflexivity.
Qed.

(** C1, on three appends of which two share a second. *)
Lemma C1_verify_after_appends_witness :
  exists hs conn',
    append_events Ledger.append_event calls_in_order [] = (inr hs, conn')
    /\ List.length hs = 3%nat
    /\ Ledger.verify_chain conn' = inr (List.last hs Ledger.GENESIS_HASH).
Proof.
  eexists _, _. split; [vm_compute; reflexivity|]. split; [reflexivity|].
  apply (C1_verify_after_appends calls_in_order); vm_compute; reflexivity.
Defined.

(** C1 as stated fails: [append_event] takes [created_at] from its caller;
    after an append stamped 2026-01-02 and one stamped 2026-01-01 the
    second row sorts first but links to the first, and [verify_chain]
    raises "Chain broken at event #1". *)
Lemma C1_clock_back_counterexample :
  match append_events Ledger.append_event calls_clock_back [] with
  | (inr hs, conn') =>
      Ledger.verify_chain conn' = inl (ValueError (ChainBroken 1))
      /\ Ledger.verify_chain conn' <> inr (List.last hs Ledger.GENESIS_HASH)
  | (inl _, _) => False
  end.
Proof. vm_compute. split; [reflexivity|discriminate]. Qed.

(** * Edits of one column *)

Lemma verify_chain_edit (db a b : list Row) (r' : Row) (p : list N) :
  select_order_by_created_at_asc db = a ++ r' :: b ->
  Ledger.verify_loop Ledger.GENESIS_HASH 1 a = inr p ->
  Ledger.verify_chain db =
    if decide (prev_hash r' = p) then
      if decide (Ledger.sha256_hex (row_material r') = event_hash r')
      then Ledger.verify_loop (event_hash r') (S (S (List.length a))) b
      else inl (ValueError (TamperDetected (S (List.length a))))
    else inl (ValueError (ChainBroken (S (List.length a)))).
Proof.
  intros Hord Ha. rewrite verify_chain_loop, Hord, verify_loop_app, Ha.
  reflexivity.
Qed.

Lemma verify_loop_prefix (p : list N) (i : nat) (a b : list Row) (t : list N) :
  Ledger.verify_loop p i (a ++ b) = inr t ->
  exists q, Ledger.verify_loop p i a = inr q.
Proof.
  rewrite verify_loop_app. destruct (Ledger.verify_loop p i a) as [e|q]; [discriminate|].
  eauto.
Qed.

(** C2 (as amended).  Take a table on which [verify_chain] succeeds and a
    row [r] of it, at place [i] (from 0) in [created_at] order, so event
    number [S i] of the verifier.  After one column of [r] is set to a
    different value [v]:
    - [prev_hash]: "Chain broken at event #(S i)";
    - [event_hash]: "Tamper detected at event #(S i)";
    - [event_type], [entity_type], [entity_id], [payload_json]:
      "Tamper detected at event #(S i)", provided SHA-256 does not give
      the edited material the digest of the original one;
    - [created_at]: the same, provided moreover the row keeps its place
      in [created_at] order;
    - [event_id]: nothing is raised and the same tip is returned, the
      identifier not being hashed. *)
Theorem C2_single_column_edit (pre : list Row) (r : Row) (post : list Row)
    (tip : list N) :
  Ledger.verify_chain (pre ++ r :: post) = inr tip ->
  exists i : nat,
    select_order_by_created_at_asc (pre ++ r :: post) !! i = Some r /\
    forall (c : Column) (v : list N), v <> column c r ->
      let r' := set_column c v r in
      let outcome := Ledger.verify_chain (pre ++ r' :: post) in
      match c with
      | col_prev_hash => outcome = inl (ValueError (ChainBroken (S i)))
      | col_event_hash => outcome = inl (ValueError (TamperDetected (S i)))
      | col_event_id => outcome = inr tip
      | col_created_at =>
          select_order_by_created_at_asc (pre ++ r' :: post) =
            <[i := r']> (select_order_by_created_at_asc (pre ++ r :: post)) ->
          Ledger.sha256_hex (row_material r') <> Ledger.sha256_hex (row_material r) ->
          outcome = inl (ValueError (TamperDetected (S i)))
      | _ =>
          Ledger.sha256_hex (row_material r') <> Ledger.sha256_hex (row_material r) ->
          outcome = inl (ValueError (TamperDetected (S i)))
      end.
Proof.
  intros Hok.
  destruct (order_by_edit created_at pre r post) as (a & b & Hord).
  fold (select_order_by_created_at_asc) in Hord.
  assert (Hr := Hord r eq_refl).
  change (order_by created_at (pre ++ r :: post))
    with (select_order_by_created_at_asc (pre ++ r :: post)) in Hr.
  assert (Hloop := Hok). rewrite verify_chain_loop, Hr in Hloop.
  destruct (verify_loop_prefix _ _ _ _ _ Hloop) as (p & Ha).
  rewrite (verify_chain_edit _ a b r p Hr Ha) in Hok.
  destruct (decide (prev_hash r = p)) as [Hp|]; [|discriminate].
  destruct (decide (Ledger.sha256_hex (row_material r) = event_hash r)) as [Hh|];
    [|discriminate].
  exists (List.length a). split.
  { rewrite Hr. now rewrite list_lookup_middle. }
  intros c v Hv r' outcome.
  assert (Hedit : forall x, select_order_by_created_at_asc (pre ++ x :: post) = a ++ x :: b ->
            Ledger.verify_chain (pre ++ x :: post) =
            if decide (prev_hash x = p) then
              if decide (Ledger.sha256_hex (row_material x) = event_hash x)
              then Ledger.verify_loop (event_hash x) (S (S (List.length a))) b
              else inl (ValueError (TamperDetected (S (List.length a))))
            else inl (ValueError (ChainBroken (S (List.length a)))))
    by (intros x Hx; exact (verify_chain_edit _ a b x p Hx Ha)).
  assert (Hsame : created_at r' = created_at r ->
            select_order_by_created_at_asc (pre ++ r' :: post) = a ++ r' :: b)
    by (intros Hk; exact (Hord r' Hk)).
  destruct c; subst r' outcome; cbn [column] in Hv.
  - (* event_id *)
    rewrite Hedit by (apply Hsame; reflexivity).
    cbn [set_column prev_hash event_hash]. rewrite decide_True by exact Hp.
    rewrite decide_True by exact Hh. exact Hok.
  - (* created_at *)
    intros Hplace Hneq. rewrite Hr in Hplace.
    replace (List.length a) with (List.length a + 0)%nat in Hplace at 1 by lia.
    rewrite insert_app_r in Hplace. cbn in Hplace.
    rewrite Hedit by exact Hplace.
    cbn [set_column prev_hash event_hash]. rewrite decide_True by exact Hp.
    rewrite decide_False; [reflexivity|]. rewrite <- Hh. exact Hneq.
  - intros Hneq. rewrite Hedit by (apply Hsame; reflexivity).
    cbn [set_column prev_hash event_hash]. rewrite decide_True by exact Hp.
    rewrite decide_False; [reflexivity|]. rewrite <- Hh. exact Hneq.
  - intros Hneq. rewrite Hedit by (apply Hsame; reflexivity).
    cbn [set_column prev_hash event_hash]. rewrite decide_True by exact Hp.
    rewrite decide_False; [reflexivity|]. rewrite <- Hh. exact Hneq.
  - intros Hneq. rewrite Hedit by (apply Hsame; reflexivity).
    cbn [set_column prev_hash event_hash]. rewrite decide_True by exact Hp.
    rewrite decide_False; [reflexivity|]. rewrite <- Hh. exact Hneq.
  - intros Hneq. rewrite Hedit by (apply Hsame; reflexivity).
    cbn [set_column prev_hash event_hash]. rewrite decide_True by exact Hp.
    rewrite decide_False; [reflexivity|]. rewrite <- Hh. exact Hneq.
  - (* prev_hash *)
    rewrite Hedit by (apply Hsame; reflexivity).
    cbn [set_column prev_hash]. rewrite decide_False; [reflexivity|].
    rewrite <- Hp. exact Hv.
  - (* event_hash *)
    rewrite Hedit by (apply Hsame; reflexivity).
    cbn [set_column prev_hash event_hash]. rewrite decide_True by exact Hp.
    rewrite decide_False; [reflexivity|].
    change (row_material (Event (event_id r) (created_at r) (event_type r)
              (entity_type r) (entity_id r) (payload_json r) (prev_hash r) v))
      with (row_material r).
    rewrite Hh. auto.
Qed.

(** C2, on the middle row of [sample_db]. *)
Lemma C2_single_column_edit_witness :
  Ledger.verify_chain [sample_row 0; sample_row 1; sample_row 2]
    = inr (event_hash (sample_row 2))
  /\ Ledger.verify_chain
       [sample_row 0; set_column col_prev_hash (u "GENESIS") (sample_row 1); sample_row 2]
     = inl (ValueError (ChainBroken 2))
  /\ Ledger.verify_chain
       [sample_row 0; set_column col_payload_json (u "{}x") (sample_row 1); sample_row 2]
     = inl (ValueError (TamperDetected 2))
  /\ Ledger.verify_chain
       [sample_row 0; set_column col_event_hash hex_abc (sample_row 1); sample_row 2]
     = inl (ValueError (TamperDetected 2)).
Proof.
  assert (Hok : Ledger.verify_chain ([sample_row 0] ++ sample_row 1 :: [sample_row 2])
                = inr (event_hash (sample_row 2))) by (vm_compute; reflexivity).
  destruct (C2_single_column_edit [sample_row 0] (sample_row 1) [sample_row 2]
              (event_hash (sample_row 2)) Hok) as (i & Hi & Hedit).
  assert (i = 1%nat) as ->.
  { destruct i as [|[|[|i]]]; vm_compute in Hi; congruence. }
  split; [exact Hok|]. split; [|split].
  - apply (Hedit col_prev_hash (u "GENESIS")). vm_compute. discriminate.
  - apply (Hedit col_payload_json (u "{}x")); vm_compute; discriminate.
  - apply (Hedit col_event_hash hex_abc). vm_compute. discriminate.
Defined.

(** C2 as stated fails for [event_id]: with the identifier of the second
    row of [sample_db] replaced, [verify_chain] still succeeds with the
    same tip. *)
Lemma C2_event_id_counterexample :
  Ledger.verify_chain [sample_row 0; sample_row 1; sample_row 2]
    = inr (event_hash (sample_row 2))
  /\ u "forged" <> event_id (sample_row 1)
  /\ Ledger.verify_chain
       [sample_row 0; set_column col_event_id (u "forged") (sample_row 1); sample_row 2]
     = inr (event_hash (sample_row 2))
  /\ Ledger.verify_chain
       [sample_row 0; set_column col_event_id (u "forged") (sample_row 1); sample_row 2]
     <> inl (ValueError (TamperDetected 2)).
Proof.
  split; [vm_compute; reflexivity|]. split; [vm_compute; discriminate|].
  split; [vm_compute; reflexivity|]. vm_compute. discriminate.
Qed.

(** * The two chain builders *)

Lemma last_hash_erase_id (conn : list Row) :
  Ledger.get_last_event_hash (List.map erase_id conn) = Ledger.get_last_event_hash conn.
Proof.
  unfold Ledger.get_last_event_hash, select_order_by_created_at_desc.
  rewrite (order_by_map created_at erase_id conn) by reflexivity.
  rewrite <- List.map_rev. now destruct (List.rev (order_by created_at conn)).
Qed.

Lemma append_event_same :
  forall id et ent eid ts p conn,
    Ledger.append_event id et ent eid ts p conn
    = AiLayer.append_event id et ent eid ts p conn.
Proof. reflexivity. Qed.

Lemma append_events_same_hashes (calls1 : list Call) :
  forall (calls2 : list Call) (conn1 conn2 c1 c2 : list Row) (hs1 hs2 : list (list N)),
  List.map call_input calls1 = List.map call_input calls2 ->
  List.map erase_id conn1 = List.map erase_id conn2 ->
  append_events Ledger.append_event calls1 conn1 = (inr hs1, c1) ->
  append_events AiLayer.append_event calls2 conn2 = (inr hs2, c2) ->
  hs1 = hs2.
Proof.
  induction calls1 as [|x calls1 IH]; intros [|y calls2] conn1 conn2 c1 c2 hs1 hs2
    Hin Hconn H1 H2; try discriminate.
  - cbn in H1, H2. congruence.
  - cbn [List.map] in Hin.
    assert (Hxy : call_input x = call_input y) by congruence.
    assert (Hrest : List.map call_input calls1 = List.map call_input calls2)
      by congruence.
    unfold call_input in Hxy.
    assert (Het : call_event_type x = call_event_type y) by congruence.
    assert (Hent : call_entity_type x = call_entity_type y) by congruence.
    assert (Heid : call_entity_id x = call_entity_id y) by congruence.
    assert (Hts : call_created_at x = call_created_at y) by congruence.
    assert (Hp : call_payload x = call_payload y) by congruence.
    cbn [append_events] in H1, H2.
    rewrite <- append_event_same in H2.
    destruct (Ledger.append_event _ _ _ _ _ _ conn1) as [[e|h1] d1] eqn:E1; [discriminate|].
    destruct (Ledger.append_event _ _ _ _ _ _ conn2) as [[e|h2] d2] eqn:E2; [discriminate|].
    apply append_event_inr in E1 as [Hh1 Hd1].
    apply append_event_inr in E2 as [Hh2 Hd2].
    rewrite <- (last_hash_erase_id conn1) in Hh1, Hd1.
    rewrite <- (last_hash_erase_id conn2) in Hh2, Hd2.
    rewrite Hconn, Het, Hent, Heid, Hts, Hp in Hh1, Hd1.
    assert (Hh : h1 = h2) by congruence.
    destruct (append_events Ledger.append_event calls1 d1) as [[e|t1] e1] eqn:R1;
      [discriminate|].
    destruct (append_events AiLayer.append_event calls2 d2) as [[e|t2] e2] eqn:R2;
      [discriminate|].
    inversion H1; inversion H2; subst hs1 hs2.
    f_equal; [exact Hh|].
    apply (IH calls2 d1 d2 e1 e2 t1 t2 Hrest); [|exact R1|exact R2].
    rewrite Hd1, Hd2, !List.map_app, Hconn. cbn. unfold erase_id. cbn.
    now rewrite Hh.
Qed.

(** C3.  [append_event] of ledger.py and [append_event] of ai_layer.py are
    the same function of their arguments and the table; on tables with the
    same last hash and with the same caller arguments they hand back the
    same [event_hash], whatever identifiers are drawn; and two initially
    empty tables fed the same sequence of caller arguments, one through
    each builder, hand back the same sequence of hashes. *)
Theorem C3_builders_agree :
  (forall id et ent eid ts p conn,
     Ledger.append_event id et ent eid ts p conn
     = AiLayer.append_event id et ent eid ts p conn)
  /\ (forall id1 id2 et ent eid ts p conn1 conn2 h1 h2 c1 c2,
        Ledger.get_last_event_hash conn1 = AiLayer.get_last_event_hash conn2 ->
        Ledger.append_event id1 et ent eid ts p conn1 = (inr h1, c1) ->
        AiLayer.append_event id2 et ent eid ts p conn2 = (inr h2, c2) ->
        h1 = h2)
  /\ (forall calls1 calls2 hs1 hs2 c1 c2,
        List.map call_input calls1 = List.map call_input calls2 ->
        append_events Ledger.append_event calls1 [] = (inr hs1, c1) ->
        append_events AiLayer.append_event calls2 [] = (inr hs2, c2) ->
        hs1 = hs2).
Proof.
  split; [reflexivity|]. split.
  - intros id1 id2 et ent eid ts p conn1 conn2 h1 h2 c1 c2 Hprev H1 H2.
    rewrite <- append_event_same in H2.
    apply append_event_inr in H1 as [H1 _]. apply append_event_inr in H2 as [H2 _].
    change (AiLayer.get_last_event_hash conn2)
      with (Ledger.get_last_event_hash conn2) in Hprev.
    congruence.
  - intros calls1 calls2 hs1 hs2 c1 c2 Hin H1 H2.
    exact (append_events_same_hashes calls1 calls2 [] [] c1 c2 hs1 hs2 Hin eq_refl H1 H2).
Qed.

(** C3, on two runs of three appends that differ in every identifier. *)
Lemma C3_builders_agree_witness :
  exists hs1 hs2 c1 c2,
    append_events Ledger.append_event calls_in_order [] = (inr hs1, c1)
    /\ append_events AiLayer.append_event calls_other_ids [] = (inr hs2, c2)
    /\ c1 <> c2 /\ List.length hs1 = 3%nat /\ hs1 = hs2.
Proof.
  eexists _, _, _, _. split; [vm_compute; reflexivity|].
  split; [vm_compute; reflexivity|]. split; [vm_compute; discriminate|].
  split; [reflexivity|].
  eapply (proj2 (proj2 C3_builders_agree) calls_in_order calls_other_ids);
    vm_compute; reflexivity.
Defined.

(** * Duplicate hashes *)

(** C6.  When a row of the table already carries the hash [append_event]
    computes, the call fails with [sqlite3.IntegrityError] (the UNIQUE
    index on [event_hash] rejects the row) and the table is unchanged. *)
Theorem C6_duplicate_hash_rejected (id et ent eid ts : list N) (p : json)
    (conn : list Row) :
  (exists row, List.In row conn /\
     event_hash row =
       Ledger.sha256_hex (material (Ledger.get_last_event_hash conn) ts et ent eid
                                   (Ledger.canonical_json p))) ->
  Ledger.append_event id et ent eid ts p conn = (inl IntegrityError, conn).
Proof.
  intros (row & Hin & Hh). unfold Ledger.append_event, insert_event.
  cbn [event_hash event_id].
  replace (List.existsb (fun x => bool_decide (event_hash x = _)) conn) with true.
  - now rewrite orb_true_r.
  - symmetry. apply List.existsb_exists. exists row. split; [exact Hin|].
    apply bool_decide_eq_true. exact Hh.
Qed.

(** C6, on the table left by [calls_clock_back]: its second call, made
    again, computes the same hash once more. *)
Lemma C6_duplicate_hash_rejected_witness :
  Ledger.append_event (u "id-3") (u "decision.create") (u "decision") (u "D-2")
    (u "2026-01-01T00:00:00Z") (JDict []) db_after_clock_back
  = (inl IntegrityError, db_after_clock_back).
Proof.
  apply C6_duplicate_hash_rejected.
  exists (List.nth 1 db_after_clock_back (Event [] [] [] [] [] [] [] [])).
  split; [vm_compute; right; left; reflexivity|vm_compute; reflexivity].
Defined.

(** * Reading what the anchor writers wrote *)

Lemma anchor_text_lines (h ts note : list N) :
  anchor_text h ts note =
  (u "latest_hash" ++ 61%N :: h) ++ 10%N ::
  (u "timestamp" ++ 61%N :: ts) ++ 10%N ::
  (u "note" ++ 61%N :: note) ++ 10%N :: [].
Proof.
  unfold anchor_text.
  change (u "latest_hash=") with (u "latest_hash" ++ [61%N]).
  change (u "timestamp=") with (u "timestamp" ++ [61%N]).
  change (u "note=") with (u "note" ++ [61%N]).
  repeat rewrite <- app_assoc. reflexivity.
Qed.

Lemma no_char_cons (x c : N) (s : list N) :
  no_char x (c :: s) = negb (c =? x)%N && no_char x s.
Proof. reflexivity. Qed.

Lemma no_char_key_value (x : N) (k v : list N) :
  no_char x k = true -> negb (61 =? x)%N = true -> no_char x v = true ->
  no_char x (k ++ 61%N :: v) = true.
Proof.
  intros Hk Hx Hv. rewrite no_char_app, Hk. unfold no_char in *.
  cbn [List.forallb]. now rewrite Hx, Hv.
Qed.

Lemma parse_anchor_text (h ts note : list N) :
  one_line h = true -> one_line ts = true -> one_line note = true ->
  List.fold_left Ledger.take_line
    (readlines (universal_newlines (anchor_text h ts note))) ∅
  = <[u "note" := strip note]>
      (<[u "timestamp" := strip ts]> (<[u "latest_hash" := strip h]> ∅)).
Proof.
  intros Hh Hts Hnote.
  destruct (one_line_no_char h Hh) as [Hh10 Hh13].
  destruct (one_line_no_char ts Hts) as [Ht10 Ht13].
  destruct (one_line_no_char note Hnote) as [Hn10 Hn13].
  rewrite universal_newlines_id.
  2:{ rewrite anchor_text_lines.
      repeat (rewrite no_char_app; apply andb_true_intro; split;
              [apply no_char_key_value; auto|];
              rewrite no_char_cons; apply andb_true_intro; split; [reflexivity|]).
      reflexivity. }
  rewrite anchor_text_lines.
  rewrite !readlines_line by (apply no_char_key_value; auto).
  cbn [readlines List.fold_left].
  repeat rewrite <- app_assoc. cbn [app].
  rewrite !take_line_key_value by (reflexivity || discriminate).
  reflexivity.
Qed.

Lemma write_anchor_files_anchor (af ah h note ts : list N)
    (fs : gmap (list N) (list N)) :
  af <> ah ->
  Ledger.write_anchor_files af ah h note ts fs !! af = Some (anchor_text h ts note).
Proof.
  intros Hne. unfold Ledger.write_anchor_files.
  rewrite lookup_insert_ne by congruence. now rewrite lookup_insert_eq.
Qed.

Lemma write_anchor_files_history (af ah h note ts : list N)
    (fs : gmap (list N) (list N)) :
  Ledger.write_anchor_files af ah h note ts fs !! ah =
  Some (default [] (<[af := anchor_text h ts note]> fs !! ah) ++ history_entry ts h note).
Proof. unfold Ledger.write_anchor_files. now rewrite lookup_insert_eq. Qed.

(** C8 (as amended).  When the anchor file and the history file are
    different files and [h], [note] and [ts] hold no line feed and no
    carriage return, [read_anchor_file] after [write_anchor_files] yields
    [latest_hash = h.strip()]; this is [h] whenever [h] has no white space
    at either end. *)
Theorem C8_anchor_round_trip (af ah h note ts : list N)
    (fs : gmap (list N) (list N)) :
  af <> ah -> one_line h = true -> one_line note = true -> one_line ts = true ->
  exists data,
    Ledger.read_anchor_file af (Ledger.write_anchor_files af ah h note ts fs) = inr data
    /\ data !! u "latest_hash" = Some (strip h)
    /\ (strip h = h -> data !! u "latest_hash" = Some h).
Proof.
  intros Hne Hh Hnote Hts. unfold Ledger.read_anchor_file.
  rewrite (write_anchor_files_anchor af ah h note ts fs Hne).
  eexists. split; [reflexivity|].
  rewrite (parse_anchor_text h ts note Hh Hts Hnote).
  assert (H : (<[u "note" := strip note]>
                (<[u "timestamp" := strip ts]> (<[u "latest_hash" := strip h]> ∅))
               : gmap (list N) (list N))
              !! u "latest_hash" = Some (strip h)).
  { rewrite lookup_insert_ne by (vm_compute; discriminate).
    rewrite lookup_insert_ne by (vm_compute; discriminate).
    apply lookup_insert_eq. }
  split; [exact H|]. intros Hs. now rewrite H, Hs.
Qed.

(** C8, on a SHA-256 digest and a daily note. *)
Lemma C8_anchor_round_trip_witness :
  exists data,
    Ledger.read_anchor_file path_anchor
      (Ledger.write_anchor_files path_anchor path_history hex_abc
         (u "DAILY_ANCHOR 2026-01-01 EOD") ts0 ∅) = inr data
    /\ data !! u "latest_hash" = Some hex_abc.
Proof.
  destruct (C8_anchor_round_trip path_anchor path_history hex_abc
              (u "DAILY_ANCHOR 2026-01-01 EOD") ts0 ∅)
    as (data & Hread & _ & Hsame).
  - vm_compute. discriminate.
  - vm_compute. reflexivity.
  - vm_compute. reflexivity.
  - vm_compute. reflexivity.
  - exists data. split; [exact Hread|]. apply Hsame. vm_compute. reflexivity.
Defined.

(** C8 as stated fails: with the note "EOD\nlatest_hash=evil" the file
    gets a fourth line, and [read_anchor_file] yields [latest_hash = evil]
    instead of the [GENESIS] that was written. *)
Lemma C8_injected_line_counterexample :
  match Ledger.read_anchor_file path_anchor
          (Ledger.write_anchor_files path_anchor path_history Ledger.GENESIS_HASH
             (u "EOD" ++ [10%N] ++ u "latest_hash=evil") ts0 ∅) with
  | inr data => data !! u "latest_hash" = Some (u "evil")
                /\ data !! u "latest_hash" <> Some Ledger.GENESIS_HASH
  | inl _ => False
  end.
Proof. vm_compute. split; [reflexivity|discriminate]. Qed.

(** * The anchor history *)




(** * Daily publish *)

(** C4.  When [verify_chain] raises [e], [daily_publish] raises [e] and
    leaves the world, the anchor file and the history file with it,
    exactly as it was. *)
Theorem C4_broken_chain_touches_nothing (m : Mailer)
    (ts date_note date_payload anchor_file anchor_history label : list N)
    (w : World) (e : exn) :
  Ledger.verify_chain (events w) = inl e ->
  Ledger.daily_publish m ts date_note date_payload anchor_file anchor_history label w
  = (inl e, w).
Proof. intros H. unfold Ledger.daily_publish. now rewrite H. Qed.

(** C5.  When the chain verifies, the anchor written in step 2 verifies in
    step 3 and [send_email] raises [e], [daily_publish] raises [e]; the
    events are unchanged; the files are those [write_anchor_files] left;
    the anchor file reads back [latest_hash = last_hash]; the history file
    ends with the new entry, after its previous text when it is not the
    anchor file. *)
Theorem C5_failed_send_keeps_anchor (m : Mailer)
    (ts date_note date_payload anchor_file anchor_history label : list N)
    (w : World) (last_hash : list N) (e : exn) :
  let note := Ledger.publish_note date_note label in
  let written := Ledger.write_anchor_files anchor_file anchor_history last_hash
                   note ts (files w) in
  Ledger.verify_chain (events w) = inr last_hash ->
  Ledger.verify_anchor (events w) anchor_file written = inr tt ->
  Ledger.send_email m (Ledger.publish_subject date_payload last_hash)
    (Ledger.canonical_json
       (Ledger.publish_payload date_payload label ts last_hash anchor_file
          anchor_history)) = inl e ->
  exists w',
    Ledger.daily_publish m ts date_note date_payload anchor_file anchor_history label w
      = (inl e, w')
    /\ events w' = events w
    /\ files w' = written
    /\ (exists data, Ledger.read_anchor_file anchor_file (files w') = inr data
                     /\ data !! u "latest_hash" = Some last_hash)
    /\ (exists before, files w' !! anchor_history
                       = Some (before ++ history_entry ts last_hash note)
                       /\ (anchor_file <> anchor_history ->
                           before = default [] (files w !! anchor_history)))
    /\ (anchor_file <> anchor_history ->
        files w' !! anchor_file = Some (anchor_text last_hash ts note)).
Proof.
  intros note written Hchain Hanchor Hsend.
  exists {| events := events w; files := written |}.
  split.
  { unfold Ledger.daily_publish. rewrite Hchain. cbn [events files].
    fold note. fold written. rewrite Hanchor, Hsend. reflexivity. }
  split; [reflexivity|]. split; [reflexivity|]. cbn [files]. split.
  { unfold Ledger.verify_anchor in Hanchor. rewrite Hchain in Hanchor.
    destruct (Ledger.read_anchor_file anchor_file written) as [x|data]; [discriminate|].
    exists data. split; [reflexivity|].
    destruct (truthy (data !! u "latest_hash")); [|discriminate].
    destruct (decide (Some last_hash = data !! u "latest_hash")) as [Heq|];
      [now symmetry|discriminate]. }
  split.
  { eexists. split; [apply write_anchor_files_history|].
    intros Hne. now rewrite lookup_insert_ne by congruence. }
  intros Hne. now apply write_anchor_files_anchor.
Qed.

(** C4, on a table whose second payload was edited. *)
Lemma C4_broken_chain_touches_nothing_witness :
  Ledger.daily_publish mailer_unconfigured ts0 (u "2026-01-01") (u "2026-01-01")
    path_anchor path_history (u "EOD") world_tampered
  = (inl (ValueError (TamperDetected 2)), world_tampered).
Proof.
  apply (C4_broken_chain_touches_nothing mailer_unconfigured ts0 (u "2026-01-01")
           (u "2026-01-01") path_anchor path_history (u "EOD") world_tampered).
  vm_compute. reflexivity.
Defined.

(** C5, with no SMTP variable set. *)
Lemma C5_failed_send_keeps_anchor_witness :
  exists w',
    Ledger.daily_publish mailer_unconfigured ts0 (u "2026-01-01") (u "2026-01-01")
      path_anchor path_history (u "EOD") world_sound
      = (inl (ValueError MissingSMTP), w')
    /\ events w' = events world_sound
    /\ files w' !! path_history
       = Some (history_entry ts0 Ledger.GENESIS_HASH (u "init")
               ++ history_entry ts0 (event_hash (sample_row 2))
                    (u "DAILY_ANCHOR 2026-01-01 EOD")).
Proof.
  destruct (C5_failed_send_keeps_anchor mailer_unconfigured ts0 (u "2026-01-01")
              (u "2026-01-01") path_anchor path_history (u "EOD") world_sound
              (event_hash (sample_row 2)) (ValueError MissingSMTP))
    as (w' & Hrun & Hev & Hfiles & _ & (before & Hhist & Hbefore) & _).
  - vm_compute. reflexivity.
  - vm_compute. reflexivity.
  - vm_compute. reflexivity.
  - exists w'. split; [exact Hrun|]. split; [exact Hev|].
    rewrite Hhist, Hbefore by (vm_compute; discriminate). reflexivity.
Defined.

(** * Hex digests *)

Lemma hex_digit_no_space (x : Z) :
  isspace (SHA256.hex_digit (Z.land x 15)) = false.
Proof.
  assert (H : (0 <= Z.land x 15 < 16)%Z).
  { change 15%Z with (Z.ones 4). rewrite Z.land_ones by lia.
    apply Z.mod_pos_bound. reflexivity. }
  generalize dependent (Z.land x 15). intros d H.
  assert (Hd : (d = 0 \/ d = 1 \/ d = 2 \/ d = 3 \/ d = 4 \/ d = 5 \/ d = 6 \/ d = 7
               \/ d = 8 \/ d = 9 \/ d = 10 \/ d = 11 \/ d = 12 \/ d = 13 \/ d = 14
               \/ d = 15)%Z) by lia.
  repeat (destruct Hd as [Hd|Hd]; [subst d; reflexivity|]).
  subst d. reflexivity.
Qed.

Lemma hex_of_word_no_space (k : nat) (x : Z) :
  no_space (SHA256.hex_of_word k x) = true.
Proof.
  unfold no_space. induction k as [|k IH]; [reflexivity|].
  cbn [SHA256.hex_of_word List.forallb]. now rewrite hex_digit_no_space, IH.
Qed.

Lemma hexdigest_no_space (msg : list Z) : no_space (SHA256.hexdigest msg) = true.
Proof.
  unfold SHA256.hexdigest, SHA256.digest. cbn [List.map List.concat].
  unfold no_space. rewrite !List.forallb_app.
  repeat match goal with
  | |- context [List.forallb _ (SHA256.hex_of_word 8 ?x)] =>
      change (List.forallb (fun c => negb (isspace c)) (SHA256.hex_of_word 8 x))
        with (no_space (SHA256.hex_of_word 8 x));
      rewrite (hex_of_word_no_space 8 x)
  end.
  reflexivity.
Qed.


Lemma hex_digit_is_hex (x : Z) : is_hex (SHA256.hex_digit (Z.land x 15)) = true.
Proof.
  assert (H : (0 <= Z.land x 15 < 16)%Z).
  { change 15%Z with (Z.ones 4). rewrite Z.land_ones by lia.
    apply Z.mod_pos_bound. reflexivity. }
  generalize dependent (Z.land x 15). intros d H.
  assert (Hd : (d = 0 \/ d = 1 \/ d = 2 \/ d = 3 \/ d = 4 \/ d = 5 \/ d = 6 \/ d = 7
               \/ d = 8 \/ d = 9 \/ d = 10 \/ d = 11 \/ d = 12 \/ d = 13 \/ d = 14
               \/ d = 15)%Z) by lia.
  repeat (destruct Hd as [Hd|Hd]; [subst d; reflexivity|]).
  subst d. reflexivity.
Qed.

Lemma hex_of_word_is_hex (k : nat) (x : Z) :
  List.forallb is_hex (SHA256.hex_of_word k x) = true
  /\ List.length (SHA256.hex_of_word k x) = k.
Proof.
  induction k as [|k [IH1 IH2]]; [split; reflexivity|].
  cbn [SHA256.hex_of_word List.forallb List.length].
  now rewrite hex_digit_is_hex, IH1, IH2.
Qed.

Lemma sha256_hex_length (s : list N) : List.length (Ledger.sha256_hex s) = 64%nat.
Proof.
  unfold Ledger.sha256_hex, SHA256.hexdigest, SHA256.digest.
  cbn [List.map List.concat]. rewrite !List.length_app.
  rewrite !(proj2 (hex_of_word_is_hex 8 _)). reflexivity.
Qed.

(** * The anchor readers *)

Lemma splitlines_single (h : list N) :
  h <> [] -> no_space h = true -> splitlines h = [h].
Proof.
  unfold no_space. induction h as [|c r IH]; [congruence|]. intros _ H.
  cbn [List.forallb] in H. apply andb_prop in H as [Hc Hr].
  apply negb_true_iff in Hc.
  assert (Hlb : is_linebreak c = false).
  { destruct (is_linebreak c) eqn:E; [|reflexivity].
    apply linebreak_isspace in E. congruence. }
  cbn [splitlines]. rewrite Hlb. destruct r as [|d r']; [reflexivity|].
  now rewrite IH.
Qed.




Lemma readlines_no_lf (h : list N) :
  no_char 10 h = true -> readlines h = match h with [] => [] | _ => [h] end.
Proof.
  unfold no_char. induction h as [|c r IH]; [reflexivity|].
  cbn [List.forallb readlines]. intros H. apply andb_prop in H as [Hc Hr].
  apply negb_true_iff in Hc. rewrite Hc, (IH Hr). now destruct r.
Qed.

(** C7 (as amended).  The two readers split what the claim asks of one.
    [read_prev_anchor] of finalize.py yields a bare hash (one line without
    white space that does not start with "latest_hash=") as it stands, and
    yields [GENESIS], without failing, when the anchor file is absent.
    [read_anchor_file] of ledger.py fails when the file is absent;
    [verify_anchor] fails with "Anchor file missing latest_hash" when the
    record has no or an empty [latest_hash]; and a bare hash, having no
    "=", is read as the empty record. *)
Theorem C7_anchor_readers :
  (forall (fs : gmap (list N) (list N)) (h : list N),
     h <> [] -> no_space h = true -> startswith h (u "latest_hash=") = false ->
     fs !! Finalize.ANCHOR_FILE = Some h
       \/ fs !! Finalize.ANCHOR_FILE = Some (h ++ [10%N]) ->
     Finalize.read_prev_anchor fs = inr h)
  /\ (forall fs : gmap (list N) (list N),
        fs !! Finalize.ANCHOR_FILE = None ->
        Finalize.read_prev_anchor fs = inr (u "GENESIS"))
  /\ (forall (fs : gmap (list N) (list N)) (af : list N) (db : list Row) (tip : list N),
        fs !! af = None -> Ledger.verify_chain db = inr tip ->
        Ledger.read_anchor_file af fs = inl (ValueError (AnchorNotFound af))
        /\ Ledger.verify_anchor db af fs = inl (ValueError (AnchorNotFound af)))
  /\ (forall (fs : gmap (list N) (list N)) (af : list N) (db : list Row) (tip : list N)
             (data : gmap (list N) (list N)),
        Ledger.verify_chain db = inr tip ->
        Ledger.read_anchor_file af fs = inr data ->
        data !! u "latest_hash" = None \/ data !! u "latest_hash" = Some [] ->
        Ledger.verify_anchor db af fs = inl (ValueError AnchorMissingLatestHash))
  /\ (forall (fs : gmap (list N) (list N)) (af h : list N),
        one_line h = true -> no_char 61 h = true ->
        fs !! af = Some h \/ fs !! af = Some (h ++ [10%N]) ->
        Ledger.read_anchor_file af fs = inr ∅).
Proof.
  split; [|split; [|split; [|split]]].
  - intros fs h Hne Hsp Hsw Hfile.
    assert (Hline := no_space_one_line h Hsp).
    destruct (one_line_no_char h Hline) as [_ Hcr].
    assert (Hcontent : exists text, fs !! Finalize.ANCHOR_FILE = Some text
                         /\ strip (universal_newlines text) = h).
    { destruct Hfile as [Hf|Hf]; eexists; (split; [exact Hf|]).
      - rewrite universal_newlines_id by exact Hcr. now apply strip_no_space.
      - rewrite universal_newlines_id
          by (rewrite no_char_app, Hcr; reflexivity).
        unfold strip. destruct h as [|c h'] eqn:Eh; [congruence|].
        assert (Hc : isspace c = false).
        { unfold no_space in Hsp. cbn [List.forallb] in Hsp.
          apply andb_prop in Hsp as [Hc _]. now apply negb_true_iff in Hc. }
        cbn [app lstrip]. rewrite Hc.
        change (c :: h' ++ [10%N]) with ((c :: h') ++ [10%N]).
        rewrite rstrip_app_space by reflexivity. now apply rstrip_no_space. }
    destruct Hcontent as (text & Hf & Hstrip).
    unfold Finalize.read_prev_anchor, Finalize.read_text. rewrite Hf. cbn [fmap option_fmap option_map].
    rewrite Hstrip. destruct h as [|c h'] eqn:Eh; [congruence|]. rewrite <- Eh in *.
    rewrite (splitlines_single h Hne Hsp).
    cbn [List.find]. rewrite (strip_no_space h Hsp), Hsw. reflexivity.
  - intros fs Hf. unfold Finalize.read_prev_anchor, Finalize.read_text. now rewrite Hf.
  - intros fs af db tip Hf Hchain. unfold Ledger.verify_anchor, Ledger.read_anchor_file.
    now rewrite Hchain, Hf.
  - intros fs af db tip data Hchain Hread Hmiss. unfold Ledger.verify_anchor.
    rewrite Hchain, Hread. now destruct Hmiss as [-> | ->].
  - intros fs af h Hline Heq Hfile.
    destruct (one_line_no_char h Hline) as [Hlf Hcr].
    unfold Ledger.read_anchor_file. destruct Hfile as [-> | ->].
    + rewrite universal_newlines_id by exact Hcr.
      rewrite readlines_no_lf by exact Hlf. destruct h as [|c h'] eqn:Eh; [reflexivity|].
      cbn [List.fold_left]. now rewrite take_line_no_equals.
    + rewrite universal_newlines_id by (rewrite no_char_app, Hcr; reflexivity).
      rewrite readlines_line by exact Hlf. cbn [readlines List.fold_left].
      rewrite take_line_no_equals; [reflexivity|].
      rewrite no_char_app, Heq. reflexivity.
Qed.

(** C7, on a file holding one digest. *)
Lemma C7_anchor_readers_witness :
  Finalize.read_prev_anchor (<[Finalize.ANCHOR_FILE := hex_abc ++ [10%N]]> ∅)
    = inr hex_abc
  /\ Finalize.read_prev_anchor ∅ = inr (u "GENESIS")
  /\ Ledger.verify_anchor sample_db path_anchor ∅
     = inl (ValueError (AnchorNotFound path_anchor))
  /\ Ledger.read_anchor_file path_anchor (<[path_anchor := hex_abc ++ [10%N]]> ∅)
     = inr ∅
  /\ Ledger.verify_anchor sample_db path_anchor (<[path_anchor := hex_abc ++ [10%N]]> ∅)
     = inl (ValueError AnchorMissingLatestHash).
Proof.
  destruct C7_anchor_readers as (Ha & Hb & Hc & Hd & He).
  assert (Hread : Ledger.read_anchor_file path_anchor
                    (<[path_anchor := hex_abc ++ [10%N]]> ∅) = inr ∅).
  { apply (He _ path_anchor hex_abc); [vm_compute; reflexivity..|].
    right. apply lookup_insert_eq. }
  split; [|split; [|split; [|split]]].
  - apply (Ha _ hex_abc); [vm_compute; discriminate|vm_compute; reflexivity..|].
    right. apply lookup_insert_eq.
  - apply Hb. apply lookup_empty.
  - apply (Hc ∅ path_anchor sample_db (event_hash (sample_row 2)));
      [apply lookup_empty|vm_compute; reflexivity].
  - exact Hread.
  - apply (Hd _ path_anchor sample_db (event_hash (sample_row 2)) ∅);
      [vm_compute; reflexivity|exact Hread|left; apply lookup_empty].
Defined.

(** C7 as stated fails for either reader: on a legacy file ledger.py
    finds no [latest_hash] and [verify_anchor] raises; finalize.py does
    not fail on an absent file, nor on a record without [latest_hash],
    whose first line it returns. *)
Lemma C7_no_single_reader_counterexample :
  (exists data,
     Ledger.read_anchor_file path_anchor (<[path_anchor := hex_abc ++ [10%N]]> ∅)
       = inr data
     /\ data !! u "latest_hash" = None
     /\ Ledger.verify_anchor [] path_anchor (<[path_anchor := hex_abc ++ [10%N]]> ∅)
        = inl (ValueError AnchorMissingLatestHash))
  /\ Finalize.read_prev_anchor ∅ = inr (u "GENESIS")
  /\ Finalize.read_prev_anchor
       (<[Finalize.ANCHOR_FILE := u "timestamp=" ++ ts0 ++ [10%N]]> ∅)
     = inr (u "timestamp=" ++ ts0).
Proof.
  split; [|split]; [|vm_compute; reflexivity..].
  eexists. split; [vm_compute; reflexivity|].
  split; vm_compute; reflexivity.
Qed.

(** * finalize.py against the ledger chain *)

Lemma verify_loop_tip_form (l : list Row) :
  forall (p : list N) (i : nat) (t : list N),
  Ledger.verify_loop p i l = inr t -> t = p \/ exists s, t = Ledger.sha256_hex s.
Proof.
  induction l as [|e l IH]; intros p i t H.
  - cbn in H. inversion H. now left.
  - cbn [Ledger.verify_loop] in H.
    destruct (decide (prev_hash e = p)); [|discriminate].
    destruct (decide (_ = event_hash e)) as [He|]; [|discriminate].
    right. destruct (IH _ _ _ H) as [->|Hs]; [|exact Hs]. eauto.
Qed.









(** * More of the code: deletions, formats, publishing, memories, parsers *)

(** * The order on strings *)

Lemma str_leb_refl (a : list N) : str_leb a a = true.
Proof.
  induction a as [|x a IH]; [reflexivity|]. cbn [str_leb].
  now rewrite N.ltb_irrefl, N.eqb_refl.
Qed.

Lemma str_leb_total (a : list N) :
  forall b, str_leb a b = false -> str_leb b a = true.
Proof.
  induction a as [|x a IH]; intros [|y b] H; try reflexivity; try discriminate.
  cbn [str_leb] in *.
  destruct (x <? y)%N eqn:Hlt; [discriminate|].
  destruct (x =? y)%N eqn:Heq.
  - apply N.eqb_eq in Heq. subst y. rewrite N.ltb_irrefl, N.eqb_refl. now apply IH.
  - apply N.ltb_ge in Hlt. apply N.eqb_neq in Heq.
    replace (y <? x)%N with true; [reflexivity|]. symmetry. apply N.ltb_lt. lia.
Qed.

Lemma str_leb_trans (a : list N) :
  forall b c, str_leb a b = true -> str_leb b c = true -> str_leb a c = true.
Proof.
  induction a as [|x a IH]; intros [|y b] [|z c] Hab Hbc;
    try reflexivity; try discriminate.
  cbn [str_leb] in *.
  destruct (x <? y)%N eqn:Hxy.
  - apply N.ltb_lt in Hxy. destruct (y <? z)%N eqn:Hyz.
    + apply N.ltb_lt in Hyz. replace (x <? z)%N with true; [reflexivity|].
      symmetry. apply N.ltb_lt. lia.
    + destruct (y =? z)%N eqn:Eyz; [|discriminate]. apply N.eqb_eq in Eyz. subst z.
      replace (x <? y)%N with true; [reflexivity|]. symmetry. now apply N.ltb_lt.
  - destruct (x =? y)%N eqn:Exy; [|discriminate]. apply N.eqb_eq in Exy. subst y.
    destruct (x <? z)%N; [reflexivity|].
    destruct (x =? z)%N; [|discriminate]. now apply (IH b c).
Qed.

Lemma str_leb_antisym (a : list N) :
  forall b, str_leb a b = true -> str_leb b a = true -> a = b.
Proof.
  induction a as [|x a IH]; intros [|y b] Hab Hba; try reflexivity; try discriminate.
  cbn [str_leb] in *.
  destruct (x <? y)%N eqn:Hxy.
  - apply N.ltb_lt in Hxy.
    replace (y <? x)%N with false in Hba by (symmetry; apply N.ltb_ge; lia).
    replace (y =? x)%N with false in Hba by (symmetry; apply N.eqb_neq; lia).
    discriminate.
  - destruct (x =? y)%N eqn:Exy; [|discriminate]. apply N.eqb_eq in Exy. subst y.
    rewrite N.ltb_irrefl, N.eqb_refl in Hba. f_equal. now apply IH.
Qed.

Section MoreOrderByFacts.
Context {A : Type} (key : A -> list N).

Lemma insert_by_first (x : A) (s : list A) :
  List.Forall (key_le key x) s -> insert_by key x s = x :: s.
Proof.
  intros H. destruct H as [|y s Hy _]; [reflexivity|].
  cbn [insert_by]. unfold key_le in Hy. now rewrite Hy.
Qed.

Lemma Forall_insert_by (P : A -> Prop) (x : A) (s : list A) :
  P x -> List.Forall P s -> List.Forall P (insert_by key x s).
Proof.
  intros Hx Hs. induction Hs as [|y s Hy Hs IH]; cbn [insert_by].
  - now constructor.
  - destruct (str_leb (key x) (key y)); repeat constructor; assumption.
Qed.

Lemma Forall_order_by (P : A -> Prop) (l : list A) :
  List.Forall P l -> List.Forall P (order_by key l).
Proof.
  induction 1 as [|x l Hx Hl IH]; [constructor|].
  cbn [order_by List.fold_right]. now apply Forall_insert_by.
Qed.

Lemma insert_by_sorted (x : A) (s : list A) :
  StronglySorted (key_le key) s -> StronglySorted (key_le key) (insert_by key x s).
Proof.
  induction 1 as [|y s Hs IH Hy]; cbn [insert_by].
  - repeat constructor.
  - destruct (str_leb (key x) (key y)) eqn:E.
    + constructor; [now constructor|]. constructor; [exact E|].
      eapply List.Forall_impl; [|exact Hy]. intros z Hz.
      exact (str_leb_trans _ _ _ E Hz).
    + constructor; [exact IH|]. apply Forall_insert_by; [|exact Hy].
      now apply str_leb_total.
Qed.

Lemma order_by_sorted (l : list A) : StronglySorted (key_le key) (order_by key l).
Proof.
  induction l as [|x l IH]; [constructor|].
  cbn [order_by List.fold_right]. now apply insert_by_sorted.
Qed.

Lemma insert_by_filter (p : A -> bool) (x : A) (s : list A) :
  StronglySorted (key_le key) s ->
  List.filter p (insert_by key x s)
  = if p x then insert_by key x (List.filter p s) else List.filter p s.
Proof.
  induction 1 as [|y s Hs IH Hy]; cbn [insert_by List.filter].
  - now destruct (p x).
  - destruct (str_leb (key x) (key y)) eqn:E; cbn [List.filter].
    + destruct (p x) eqn:Hx; [|reflexivity].
      symmetry. apply insert_by_first.
      assert (Hall : List.Forall (key_le key x) (y :: s)).
      { constructor; [exact E|]. eapply List.Forall_impl; [|exact Hy].
        intros z Hz. exact (str_leb_trans _ _ _ E Hz). }
      change (List.Forall (key_le key x) (List.filter p (y :: s))).
      apply List.Forall_forall. intros z Hz. apply List.filter_In in Hz as [Hz _].
      exact (proj1 (List.Forall_forall _ _) Hall z Hz).
    + rewrite IH. destruct (p y) eqn:Hy'; destruct (p x) eqn:Hx; cbn [insert_by];
        rewrite ?E; reflexivity.
Qed.

(** Ordering the rows that stay gives the ordered rows that stay. *)
Lemma order_by_filter (p : A -> bool) (l : list A) :
  order_by key (List.filter p l) = List.filter p (order_by key l).
Proof.
  induction l as [|x l IH]; [reflexivity|].
  cbn [List.filter order_by List.fold_right].
  change (List.fold_right (insert_by key) [] l) with (order_by key l).
  rewrite (insert_by_filter p x _ (order_by_sorted l)).
  destruct (p x); [|exact IH].
  cbn [order_by List.fold_right].
  change (List.fold_right (insert_by key) [] (List.filter p l))
    with (order_by key (List.filter p l)).
  now rewrite IH.
Qed.

Lemma order_by_snoc_first (l : list A) (r : A) :
  List.forallb (fun x => negb (str_leb (key x) (key r))) l = true ->
  order_by key (l ++ [r]) = r :: order_by key l.
Proof.
  induction l as [|x l IH]; [reflexivity|].
  cbn [List.forallb app order_by List.fold_right]. intros H.
  apply andb_prop in H as [Hx Hl]. apply negb_true_iff in Hx.
  change (List.fold_right (insert_by key) [] (l ++ [r])) with (order_by key (l ++ [r])).
  change (List.fold_right (insert_by key) [] l) with (order_by key l).
  rewrite (IH Hl). cbn [insert_by]. now rewrite Hx.
Qed.
End MoreOrderByFacts.

Lemma verify_loop_tip (l : list Row) :
  forall (p : list N) (i : nat) (t : list N),
  Ledger.verify_loop p i l = inr t -> t = List.last (List.map event_hash l) p.
Proof.
  induction l as [|e l IH]; intros p i t H.
  - cbn in H. now inversion H.
  - cbn [Ledger.verify_loop] in H.
    destruct (decide (prev_hash e = p)); [|discriminate].
    destruct (decide (_ = event_hash e)); [|discriminate].
    cbn [List.map]. rewrite last_cons_default. exact (IH _ _ _ H).
Qed.

Lemma last_hash_is_last (t : list Row) :
  Ledger.get_last_event_hash t
  = List.last (List.map event_hash (select_order_by_created_at_asc t))
              Ledger.GENESIS_HASH.
Proof.
  unfold Ledger.get_last_event_hash, select_order_by_created_at_desc,
    select_order_by_created_at_asc.
  destruct (order_by created_at t) as [|r l _] using rev_ind; [reflexivity|].
  rewrite rev_app_distr, List.map_app. cbn [List.rev app List.map].
  now rewrite last_last.
Qed.

(** X1.  When [verify_chain] passes, the hash it returns is the one
    [get_last_event_hash] hands to the next append: [GENESIS] on an empty
    table, else the [event_hash] of a row of the table. *)
Theorem X1_tip_is_last_hash (t : list Row) (tip : list N) :
  Ledger.verify_chain t = inr tip ->
  Ledger.get_last_event_hash t = tip
  /\ (t = [] -> tip = Ledger.GENESIS_HASH)
  /\ (t <> [] -> exists r, List.In r t /\ event_hash r = tip).
Proof.
  intros H. rewrite verify_chain_loop in H. apply verify_loop_tip in H.
  rewrite last_hash_is_last. split; [now symmetry|]. split.
  - intros ->. exact H.
  - intros Hne. destruct (select_order_by_created_at_asc t) as [|r l _] eqn:E using rev_ind.
    + destruct t as [|x t']; [congruence|].
      assert (Hin : List.In x (select_order_by_created_at_asc (x :: t')))
        by (apply In_order_by; now left).
      rewrite E in Hin. destruct Hin.
    + exists r. split.
      * apply (In_order_by created_at). unfold select_order_by_created_at_asc in E.
        rewrite E. apply List.in_or_app. right. now left.
      * rewrite List.map_app in H. cbn [List.map] in H. now rewrite last_last in H.
Qed.

(** X1, on the three sample rows. *)
Lemma X1_tip_is_last_hash_witness :
  Ledger.get_last_event_hash sample_db = event_hash (sample_row 2).
Proof.
  exact (proj1 (X1_tip_is_last_hash sample_db (event_hash (sample_row 2))
                  ltac:(vm_compute; reflexivity))).
Defined.

Lemma verify_loop_prefix_tip (p : list N) (i : nat) (a b : list Row) (t : list N) :
  Ledger.verify_loop p i (a ++ b) = inr t ->
  Ledger.verify_loop p i a = inr (List.last (List.map event_hash a) p).
Proof.
  intros H. destruct (verify_loop_prefix _ _ _ _ _ H) as (q & Hq).
  rewrite Hq. f_equal. exact (verify_loop_tip _ _ _ _ Hq).
Qed.

Lemma filter_all (p : Row -> bool) (l : list Row) :
  List.forallb p l = true -> List.filter p l = l.
Proof.
  induction l as [|x l IH]; [reflexivity|]. cbn [List.forallb List.filter].
  intros H. apply andb_prop in H as [Hx Hl]. now rewrite Hx, IH.
Qed.

Lemma filter_none (p : Row -> bool) (l : list Row) :
  List.forallb (fun r => negb (p r)) l = true -> List.filter p l = [].
Proof.
  induction l as [|x l IH]; [reflexivity|]. cbn [List.forallb List.filter].
  intros H. apply andb_prop in H as [Hx Hl]. apply negb_true_iff in Hx.
  now rewrite Hx, IH.
Qed.

(** X2.  Deleting the last rows (in [created_at] order) of a table that
    verifies leaves a table that verifies: [verify_chain] raises nothing and
    returns the hash of the last row kept, [GENESIS] when none is kept. *)
Theorem X2_tail_deletion_unnoticed (t kept dropped : list Row) (keep : Row -> bool)
    (tip : list N) :
  Ledger.verify_chain t = inr tip ->
  select_order_by_created_at_asc t = kept ++ dropped ->
  List.forallb keep kept = true ->
  List.forallb (fun r => negb (keep r)) dropped = true ->
  Ledger.verify_chain (delete_unless keep t)
  = inr (List.last (List.map event_hash kept) Ledger.GENESIS_HASH).
Proof.
  intros Hok Hord Hkept Hdrop.
  rewrite verify_chain_loop in *. unfold select_order_by_created_at_asc, delete_unless in *.
  rewrite order_by_filter, Hord, List.filter_app.
  rewrite (filter_all keep kept Hkept), (filter_none keep dropped Hdrop), app_nil_r.
  rewrite Hord in Hok. exact (verify_loop_prefix_tip _ _ _ _ _ Hok).
Qed.

(** X3.  Deleting one row that has a successor from a table that
    verifies makes [verify_chain] raise "Chain broken" at the place the
    successor now has, as long as the deleted row's hash is not its own
    [prev_hash]. *)
Theorem X3_inner_deletion_breaks_link (t a b : list Row) (r s : Row) (keep : Row -> bool)
    (tip : list N) :
  Ledger.verify_chain t = inr tip ->
  select_order_by_created_at_asc t = a ++ r :: s :: b ->
  List.forallb keep a = true -> keep r = false -> List.forallb keep (s :: b) = true ->
  event_hash r <> prev_hash r ->
  Ledger.verify_chain (delete_unless keep t)
  = inl (ValueError (ChainBroken (S (List.length a)))).
Proof.
  intros Hok Hord Ha Hr Hsb Hneq.
  assert (Hfilter : select_order_by_created_at_asc (delete_unless keep t) = a ++ s :: b).
  { unfold select_order_by_created_at_asc, delete_unless in *.
    rewrite order_by_filter, Hord, List.filter_app. cbn [List.filter]. rewrite Hr.
    assert (Hs : List.filter keep (s :: b) = s :: b) by now apply filter_all.
    cbn [List.filter] in Hs. rewrite Hs. now rewrite (filter_all keep a Ha). }
  rewrite verify_chain_loop, Hord in Hok.
  destruct (verify_loop_prefix _ _ _ _ _ Hok) as (p & Hp).
  rewrite verify_loop_app, Hp in Hok. cbn [Ledger.verify_loop] in Hok.
  destruct (decide (prev_hash r = p)) as [Hrp|]; [|discriminate].
  destruct (decide (_ = event_hash r)); [|discriminate].
  destruct (decide (prev_hash s = event_hash r)) as [Hsr|]; [|discriminate].
  rewrite (verify_chain_edit _ a b s p Hfilter Hp).
  rewrite decide_False; [reflexivity|]. rewrite Hsr, <- Hrp. exact Hneq.
Qed.

(** X2, with the last of the three sample rows deleted. *)
Lemma X2_tail_deletion_unnoticed_witness :
  Ledger.verify_chain (delete_unless (keep_all_but "id-3") sample_db)
  = inr (event_hash (sample_row 1)).
Proof.
  apply (X2_tail_deletion_unnoticed sample_db [sample_row 0; sample_row 1]
           [sample_row 2] (keep_all_but "id-3") (event_hash (sample_row 2)));
    vm_compute; reflexivity.
Defined.

(** X3, with the second of the three sample rows deleted. *)
Lemma X3_inner_deletion_breaks_link_witness :
  Ledger.verify_chain (delete_unless (keep_all_but "id-2") sample_db)
  = inl (ValueError (ChainBroken 2)).
Proof.
  apply (X3_inner_deletion_breaks_link sample_db [sample_row 0] [] (sample_row 1)
           (sample_row 2) (keep_all_but "id-2") (event_hash (sample_row 2)));
    try (vm_compute; reflexivity).
  vm_compute. discriminate.
Defined.

(** * Digests *)

(** X4.  [sha256_hex] returns 64 lower-case hexadecimal digits for every
    text; no event hash is empty or equal to the sentinel [GENESIS]. *)
Theorem X4_event_hash_format (s : list N) :
  List.length (Ledger.sha256_hex s) = 64%nat
  /\ List.forallb is_hex (Ledger.sha256_hex s) = true
  /\ Ledger.sha256_hex s <> Ledger.GENESIS_HASH
  /\ Ledger.sha256_hex s <> [].
Proof.
  assert (Hlen : List.length (Ledger.sha256_hex s) = 64%nat).
  { unfold Ledger.sha256_hex, SHA256.hexdigest, SHA256.digest.
    cbn [List.map List.concat]. rewrite !List.length_app.
    rewrite !(proj2 (hex_of_word_is_hex 8 _)). reflexivity. }
  split; [exact Hlen|]. split; [|split].
  - unfold Ledger.sha256_hex, SHA256.hexdigest, SHA256.digest.
    cbn [List.map List.concat]. rewrite !List.forallb_app.
    rewrite !(proj1 (hex_of_word_is_hex 8 _)). reflexivity.
  - intros E. rewrite E in Hlen. discriminate.
  - intros E. rewrite E in Hlen. discriminate.
Qed.

(** * What a run of appends keeps *)

Lemma insert_event_cases (r : Row) (conn conn' : list Row) (res : exn + unit) :
  insert_event r conn = (res, conn') ->
  (res = inr tt /\ conn' = conn ++ [r]
   /\ ~ List.In (event_hash r) (List.map event_hash conn)
   /\ ~ List.In (event_id r) (List.map event_id conn))
  \/ (res = inl IntegrityError /\ conn' = conn).
Proof.
  unfold insert_event.
  destruct (List.existsb (fun x => bool_decide (event_id x = event_id r)) conn) eqn:E2;
    destruct (List.existsb (fun x => bool_decide (event_hash x = event_hash r)) conn)
      eqn:E1;
    cbn [orb]; intros H; inversion H; subst; try (now right).
  left. split; [reflexivity|]. split; [reflexivity|]. split.
  - intros Hin. apply List.in_map_iff in Hin as (x & Hx & Hin).
    assert (List.existsb (fun x => bool_decide (event_hash x = event_hash r)) conn = true).
    { apply List.existsb_exists. exists x. split; [exact Hin|].
      now apply bool_decide_eq_true. }
    congruence.
  - intros Hin. apply List.in_map_iff in Hin as (x & Hx & Hin).
    assert (List.existsb (fun x => bool_decide (event_id x = event_id r)) conn = true).
    { apply List.existsb_exists. exists x. split; [exact Hin|].
      now apply bool_decide_eq_true. }
    congruence.
Qed.

Lemma append_event_cases (id et ent eid ts : list N) (p : json)
    (conn conn' : list Row) (res : exn + list N) :
  Ledger.append_event id et ent eid ts p conn = (res, conn') ->
  (exists r, res = inr (event_hash r) /\ conn' = conn ++ [r]
     /\ hash_ok r /\ prev_hash r = Ledger.get_last_event_hash conn
     /\ created_at r = ts /\ event_id r = id
     /\ ~ List.In (event_hash r) (List.map event_hash conn)
     /\ ~ List.In (event_id r) (List.map event_id conn))
  \/ (res = inl IntegrityError /\ conn' = conn).
Proof.
  unfold Ledger.append_event.
  destruct (insert_event _ conn) as [r0 c0] eqn:E.
  apply insert_event_cases in E as [(-> & -> & Hh & Hi)|(-> & ->)];
    intros H; inversion H; subst; [left|now right].
  exists (Event id ts et ent eid (Ledger.canonical_json p)
            (Ledger.get_last_event_hash conn)
            (Ledger.sha256_hex
               (material (Ledger.get_last_event_hash conn) ts et ent eid
                         (Ledger.canonical_json p)))).
  split; [reflexivity|]. split; [reflexivity|]. split; [reflexivity|].
  split; [reflexivity|]. split; [reflexivity|]. split; [reflexivity|].
  split; [exact Hh|exact Hi].
Qed.

Lemma last_hash_in (t : list Row) :
  t <> [] -> exists r, List.In r t /\ Ledger.get_last_event_hash t = event_hash r.
Proof.
  intros Hne. rewrite last_hash_is_last. unfold select_order_by_created_at_asc.
  destruct (order_by created_at t) as [|r l _] eqn:E using rev_ind.
  - destruct t as [|x t']; [congruence|].
    assert (Hin : List.In x (order_by created_at (x :: t')))
      by (apply In_order_by; now left).
    rewrite E in Hin. destruct Hin.
  - exists r. split.
    + apply (In_order_by created_at). rewrite E. apply List.in_or_app. right. now left.
    + rewrite List.map_app. cbn [List.map]. now rewrite last_last.
Qed.

Lemma append_events_keep (calls : list Call) :
  forall (conn conn' : list Row) (res : exn + list (list N)),
  NoDup (List.map event_hash conn) -> NoDup (List.map event_id conn) ->
  append_events Ledger.append_event calls conn = (res, conn') ->
  (exists added, conn' = conn ++ added
                 /\ (List.length added <= List.length calls)%nat)
  /\ NoDup (List.map event_hash conn')
  /\ NoDup (List.map event_id conn')
  /\ (List.Forall hash_ok conn -> List.Forall hash_ok conn').
Proof.
  induction calls as [|c calls IH]; intros conn conn' res Hh Hi Hrun.
  - cbn in Hrun. inversion Hrun; subst. split; [|auto].
    exists []. split; [now rewrite app_nil_r|reflexivity].
  - cbn [append_events] in Hrun.
    destruct (Ledger.append_event _ _ _ _ _ _ conn) as [r1 c1] eqn:E1.
    apply append_event_cases in E1
      as [(r & -> & -> & Hr & _ & _ & _ & Hfh & Hfi)|(-> & ->)].
    + destruct (append_events Ledger.append_event calls (conn ++ [r])) as [r2 c2] eqn:E2.
      assert (Hc2 : conn' = c2) by (destruct r2; now inversion Hrun). subst c2.
      destruct (IH (conn ++ [r]) conn' r2) as ((added & -> & Hlen) & H1 & H2 & H3).
      * rewrite List.map_app. cbn [List.map]. apply NoDup_app. split; [exact Hh|].
        split; [|apply NoDup_singleton].
        intros x Hx Hx'. apply list_elem_of_In in Hx, Hx'. cbn in Hx'.
        destruct Hx' as [<-|[]]. contradiction.
      * rewrite List.map_app. cbn [List.map]. apply NoDup_app. split; [exact Hi|].
        split; [|apply NoDup_singleton].
        intros x Hx Hx'. apply list_elem_of_In in Hx, Hx'. cbn in Hx'.
        destruct Hx' as [<-|[]]. contradiction.
      * exact E2.
      * split; [|split; [exact H1|split; [exact H2|]]].
        -- exists (r :: added). split; [now rewrite <- app_assoc|]. cbn. lia.
        -- intros Hok. apply H3. apply List.Forall_app. split; [exact Hok|].
           now repeat constructor.
    + inversion Hrun; subst. split; [|auto].
      exists []. split; [now rewrite app_nil_r|cbn; lia].
Qed.

(** X5.  An append that succeeds on a non-empty table of rows carrying
    their own digests, with a [created_at] before every stored one, leaves a
    table on which [verify_chain] raises "Chain broken at event #1": the new
    row sorts first and links to a hash, not to [GENESIS]. *)
Theorem X5_backdated_append_breaks_chain (id et ent eid ts : list N) (p : json)
    (conn conn' : list Row) (h : list N) :
  conn <> [] -> List.Forall hash_ok conn ->
  List.forallb (fun row => negb (str_leb (created_at row) ts)) conn = true ->
  Ledger.append_event id et ent eid ts p conn = (inr h, conn') ->
  Ledger.verify_chain conn' = inl (ValueError (ChainBroken 1)).
Proof.
  intros Hne Hok Hbefore Happ.
  apply append_event_cases in Happ as [(r & _ & -> & _ & Hprev & Hts & _)|[? _]];
    [|discriminate].
  rewrite verify_chain_loop. unfold select_order_by_created_at_asc.
  rewrite order_by_snoc_first by (now rewrite Hts).
  cbn [Ledger.verify_loop]. rewrite decide_False; [reflexivity|].
  rewrite Hprev. destruct (last_hash_in conn Hne) as (x & Hin & ->).
  rewrite <- (proj1 (List.Forall_forall _ _) Hok x Hin). intros E.
  pose proof (sha256_hex_length (row_material x)) as Hlen. rewrite E in Hlen.
  discriminate.
Qed.

(** X5, with an append stamped 2025 after the three sample rows. *)
Lemma X5_backdated_append_breaks_chain_witness :
  exists h conn',
    Ledger.append_event (u "id-9") (u "decision.create") (u "decision") (u "D-9")
      (u "2025-12-31T23:59:59Z") (JDict []) sample_db = (inr h, conn')
    /\ Ledger.verify_chain sample_db = inr (event_hash (sample_row 2))
    /\ Ledger.verify_chain conn' = inl (ValueError (ChainBroken 1)).
Proof.
  eexists _, _. split; [vm_compute; reflexivity|]. split; [vm_compute; reflexivity|].
  eapply (X5_backdated_append_breaks_chain (u "id-9") (u "decision.create")
            (u "decision") (u "D-9") (u "2025-12-31T23:59:59Z") (JDict []) sample_db).
  - vm_compute. discriminate.
  - apply (proj2 (proj2 (proj2 (append_events_keep calls_in_order [] sample_db
             (fst (append_events Ledger.append_event calls_in_order []))
             (NoDup_nil_2) (NoDup_nil_2) ltac:(vm_compute; reflexivity))))).
    constructor.
  - vm_compute. reflexivity.
  - vm_compute. reflexivity.
Defined.

(** X6.  Whatever the calls and whether or not one fails, a run of
    [append_event] only adds rows at the end of the table, at most one per
    call, and keeps [event_id] and [event_hash] free of duplicates. *)
Theorem X6_appends_keep_rows_unique (calls : list Call) (conn conn' : list Row)
    (res : exn + list (list N)) :
  NoDup (List.map event_hash conn) -> NoDup (List.map event_id conn) ->
  append_events Ledger.append_event calls conn = (res, conn') ->
  (exists added, conn' = conn ++ added
                 /\ (List.length added <= List.length calls)%nat)
  /\ NoDup (List.map event_hash conn')
  /\ NoDup (List.map event_id conn').
Proof.
  intros Hh Hi Hrun.
  destruct (append_events_keep calls conn conn' res Hh Hi Hrun) as (H1 & H2 & H3 & _).
  auto.
Qed.

(** X6, on a run whose third call repeats the second and is rejected. *)
Lemma X6_appends_keep_rows_unique_witness :
  append_events Ledger.append_event calls_repeat [] = (inl IntegrityError, db_after_clock_back)
  /\ NoDup (List.map event_hash db_after_clock_back)
  /\ NoDup (List.map event_id db_after_clock_back).
Proof.
  split; [vm_compute; reflexivity|].
  destruct (X6_appends_keep_rows_unique calls_repeat [] db_after_clock_back
              (inl IntegrityError)) as (_ & H1 & H2).
  - apply NoDup_nil_2.
  - apply NoDup_nil_2.
  - vm_compute. reflexivity.
  - split; assumption.
Defined.

Lemma verify_loop_hash_ok (l : list Row) :
  List.Forall hash_ok l ->
  forall (p : list N) (i : nat),
    (exists t, Ledger.verify_loop p i l = inr t)
    \/ (exists idx, Ledger.verify_loop p i l = inl (ValueError (ChainBroken idx))).
Proof.
  induction 1 as [|e l He Hl IH]; intros p i; [left; now exists p|].
  cbn [Ledger.verify_loop]. destruct (decide (prev_hash e = p)); [|right; eauto].
  rewrite decide_True by exact He. apply IH.
Qed.

(** X7.  On a table filled by [append_event] alone, [verify_chain] never
    raises "Tamper detected": it passes or raises "Chain broken". *)
Theorem X7_appended_rows_never_tampered (calls : list Call) (conn' : list Row)
    (res : exn + list (list N)) :
  append_events Ledger.append_event calls [] = (res, conn') ->
  (exists tip, Ledger.verify_chain conn' = inr tip)
  \/ (exists idx, Ledger.verify_chain conn' = inl (ValueError (ChainBroken idx))).
Proof.
  intros Hrun.
  destruct (append_events_keep calls [] conn' res (NoDup_nil_2) (NoDup_nil_2) Hrun)
    as (_ & _ & _ & Hok).
  rewrite verify_chain_loop. apply verify_loop_hash_ok.
  apply Forall_order_by. apply Hok. constructor.
Qed.

(** X7, on the table left by two appends with the clock set back. *)
Lemma X7_appended_rows_never_tampered_witness :
  exists idx, Ledger.verify_chain db_after_clock_back
              = inl (ValueError (ChainBroken idx)).
Proof.
  destruct (X7_appended_rows_never_tampered calls_clock_back db_after_clock_back
              (fst (append_events Ledger.append_event calls_clock_back [])))
    as [(tip & H)|H].
  - vm_compute. reflexivity.
  - vm_compute in H. discriminate.
  - exact H.
Defined.

(** * Reading the first anchor line back *)

Lemma universal_newlines_line (a r : list N) :
  no_char 13 a = true ->
  universal_newlines (a ++ 10%N :: r) = a ++ 10%N :: universal_newlines r.
Proof.
  unfold no_char. induction a as [|c a IH]; [reflexivity|].
  cbn [List.forallb app universal_newlines]. intros H.
  apply andb_prop in H as [Hc Ha]. apply negb_true_iff in Hc.
  now rewrite Hc, (IH Ha).
Qed.

Lemma splitlines_first (p z : list N) :
  p <> [] -> no_space p = true -> splitlines (p ++ 10%N :: z) = p :: splitlines z.
Proof.
  unfold no_space. induction p as [|c p IH]; [congruence|]. intros _ H.
  cbn [List.forallb] in H. apply andb_prop in H as [Hc Hp].
  apply negb_true_iff in Hc.
  assert (Hlb : is_linebreak c = false).
  { destruct (is_linebreak c) eqn:E; [|reflexivity].
    apply linebreak_isspace in E. congruence. }
  cbn [app splitlines]. rewrite Hlb. destruct p as [|d p'].
  - cbn [app splitlines]. change (is_linebreak 10) with true. cbn match.
    now destruct z.
  - now rewrite IH.
Qed.

(** The text of an anchor file after [strip]: the first line, then
    nothing or a line feed and more. *)
Lemma anchor_text_content (h ts note : list N) :
  no_space h = true ->
  exists tail,
    strip (universal_newlines (anchor_text h ts note)) = (u "latest_hash=" ++ h) ++ tail
    /\ (tail = [] \/ exists z, tail = 10%N :: z).
Proof.
  intros Hh.
  assert (Hp : no_space (u "latest_hash=" ++ h) = true).
  { unfold no_space in *. rewrite List.forallb_app, Hh. reflexivity. }
  unfold anchor_text.
  change (u "latest_hash=" ++ h ++ [10%N] ++ u "timestamp=" ++ ts ++ [10%N]
          ++ u "note=" ++ note ++ [10%N])
    with (u "latest_hash=" ++ h ++ 10%N :: u "timestamp=" ++ ts ++ [10%N]
          ++ u "note=" ++ note ++ [10%N]).
  rewrite app_assoc.
  rewrite universal_newlines_line
    by (exact (proj2 (one_line_no_char _ (no_space_one_line _ Hp)))).
  set (rest := universal_newlines _).
  exists (rstrip (10%N :: rest)). split.
  - unfold strip.
    assert (Hl : lstrip ((u "latest_hash=" ++ h) ++ 10%N :: rest)
                 = (u "latest_hash=" ++ h) ++ 10%N :: rest) by reflexivity.
    rewrite Hl. apply rstrip_prefix; [|now apply rstrip_no_space].
    intros E. apply (f_equal (@List.length N)) in E. rewrite List.length_app in E.
    cbn in E. lia.
  - cbn [rstrip]. destruct (rstrip rest); [left|right; eauto]. reflexivity.
Qed.

Lemma startswith_app (p x : list N) : startswith (p ++ x) p = true.
Proof.
  induction p as [|c p IH]; [now destruct x|]. cbn [app startswith].
  now rewrite N.eqb_refl, IH.
Qed.

Lemma anchor_first_line (h tail : list N) :
  no_space h = true -> tail = [] \/ (exists z, tail = 10%N :: z) ->
  exists more, splitlines ((u "latest_hash=" ++ h) ++ tail)
               = (u "latest_hash=" ++ h) :: more.
Proof.
  intros Hh Htail.
  assert (Hp : no_space (u "latest_hash=" ++ h) = true).
  { unfold no_space in *. rewrite List.forallb_app, Hh. reflexivity. }
  assert (Hne : u "latest_hash=" ++ h <> []) by discriminate.
  destruct Htail as [->|(z & ->)].
  - rewrite app_nil_r, (splitlines_single _ Hne Hp). now exists [].
  - rewrite (splitlines_first _ z Hne Hp). eauto.
Qed.

Lemma read_prev_anchor_anchor_text (fs : gmap (list N) (list N)) (h ts note : list N) :
  no_space h = true ->
  fs !! Finalize.ANCHOR_FILE = Some (anchor_text h ts note) ->
  Finalize.read_prev_anchor fs = inr h.
Proof.
  intros Hh Hf. unfold Finalize.read_prev_anchor, Finalize.read_text.
  rewrite Hf. cbn [fmap option_fmap option_map].
  destruct (anchor_text_content h ts note Hh) as (tail & -> & Htail).
  destruct (anchor_first_line h tail Hh Htail) as (more & ->).
  assert (Hp : no_space (u "latest_hash=" ++ h) = true).
  { unfold no_space in *. rewrite List.forallb_app, Hh. reflexivity. }
  cbn [List.find]. rewrite (strip_no_space _ Hp), startswith_app.
  cbn match. rewrite (strip_no_space _ Hp).
  change (u "latest_hash=" ++ h) with (u "latest_hash" ++ 61%N :: h).
  rewrite split1_found by reflexivity. rewrite (strip_no_space h Hh).
  reflexivity.
Qed.

Lemma read_latest_hash_anchor_text (fs : gmap (list N) (list N)) (h ts note : list N) :
  no_space h = true ->
  fs !! DemoReport.ANCHOR_FILE = Some (anchor_text h ts note) ->
  DemoReport.read_latest_hash fs = inr h.
Proof.
  intros Hh Hf. unfold DemoReport.read_latest_hash, DemoReport.read_text.
  rewrite Hf. cbn [fmap option_fmap option_map].
  destruct (anchor_text_content h ts note Hh) as (tail & -> & Htail).
  destruct (anchor_first_line h tail Hh Htail) as (more & ->).
  cbn [List.find]. rewrite startswith_app. cbn match.
  change (u "latest_hash=" ++ h) with (u "latest_hash" ++ 61%N :: h).
  rewrite split1_found by reflexivity. rewrite (strip_no_space h Hh).
  reflexivity.
Qed.

(** X8.  The readers of finalize.py and demo_report.py take the first
    [latest_hash=] line only: after either anchor writer has written a hash
    without white space they return that hash, whatever the note holds. *)
Theorem X8_first_line_readers (h ts note : list N) (fs : gmap (list N) (list N)) :
  no_space h = true ->
  (forall ah, ah <> Finalize.ANCHOR_FILE ->
     Finalize.read_prev_anchor
       (Ledger.write_anchor_files Finalize.ANCHOR_FILE ah h note ts fs) = inr h
     /\ DemoReport.read_latest_hash
          (Ledger.write_anchor_files DemoReport.ANCHOR_FILE ah h note ts fs) = inr h)
  /\ Finalize.read_prev_anchor (Finalize.write_anchor_file ts h note fs) = inr h
  /\ DemoReport.read_latest_hash (Finalize.write_anchor_file ts h note fs) = inr h.
Proof.
  intros Hh. split; [|split].
  - intros ah Hne. split.
    + apply (read_prev_anchor_anchor_text _ h ts note Hh).
      apply write_anchor_files_anchor. exact (not_eq_sym Hne).
    + apply (read_latest_hash_anchor_text _ h ts note Hh).
      apply write_anchor_files_anchor. exact (not_eq_sym Hne).
  - apply (read_prev_anchor_anchor_text _ h ts note Hh).
    unfold Finalize.write_anchor_file. apply lookup_insert_eq.
  - apply (read_latest_hash_anchor_text _ h ts note Hh).
    unfold Finalize.write_anchor_file. apply lookup_insert_eq.
Qed.

(** X8, with a note that carries a second [latest_hash=] line. *)
Lemma X8_first_line_readers_witness :
  Finalize.read_prev_anchor
    (Ledger.write_anchor_files path_anchor path_history hex_abc
       (u "EOD" ++ [10%N] ++ u "latest_hash=evil") ts0 ∅) = inr hex_abc
  /\ DemoReport.read_latest_hash
       (Finalize.write_anchor_file ts0 hex_abc
          (u "EOD" ++ [10%N] ++ u "latest_hash=evil") ∅) = inr hex_abc.
Proof.
  destruct (X8_first_line_readers hex_abc ts0
              (u "EOD" ++ [10%N] ++ u "latest_hash=evil") ∅) as (H1 & _ & H3).
  - vm_compute. reflexivity.
  - split; [|exact H3]. apply (H1 path_history). vm_compute. discriminate.
Defined.

(** * The anchor chain of finalize.py *)


(** * Daily publish, from outside *)

Lemma daily_publish_outcome (m : Mailer)
    (ts date_note date_payload anchor_file anchor_history label : list N) (w : World) :
  let out := Ledger.daily_publish m ts date_note date_payload anchor_file
               anchor_history label w in
  (exists e, Ledger.verify_chain (events w) = inl e /\ out = (inl e, w))
  \/ (exists tip res,
        Ledger.verify_chain (events w) = inr tip
        /\ out = (res, {| events := events w;
                          files := Ledger.write_anchor_files anchor_file anchor_history
                                     tip (Ledger.publish_note date_note label) ts
                                     (files w) |})
        /\ (res = inr tt ->
            Ledger.verify_anchor (events w) anchor_file
              (Ledger.write_anchor_files anchor_file anchor_history tip
                 (Ledger.publish_note date_note label) ts (files w)) = inr tt)).
Proof.
  cbn zeta. unfold Ledger.daily_publish.
  destruct (Ledger.verify_chain (events w)) as [e|tip]; [left; eauto|].
  right. exists tip. cbn [events files].
  destruct (Ledger.verify_anchor _ _ _) as [e|[]].
  - eexists. split; [reflexivity|]. split; [reflexivity|]. discriminate.
  - destruct (Ledger.send_email _ _ _) as [e|x]; eexists;
      (split; [reflexivity|]); (split; [reflexivity|]); auto.
Qed.

(** X10.  Whatever its outcome, [daily_publish] leaves the events as they
    were and changes no file other than the anchor file and the anchor
    history. *)
Theorem X10_publish_touches_two_files (m : Mailer)
    (ts date_note date_payload anchor_file anchor_history label : list N)
    (w w' : World) (res : exn + unit) :
  Ledger.daily_publish m ts date_note date_payload anchor_file anchor_history label w
    = (res, w') ->
  events w' = events w
  /\ forall path, path <> anchor_file -> path <> anchor_history ->
       files w' !! path = files w !! path.
Proof.
  intros Hrun.
  destruct (daily_publish_outcome m ts date_note date_payload anchor_file
              anchor_history label w) as [(e & _ & H)|(tip & r & _ & H & _)];
    cbn zeta in H; rewrite H in Hrun; inversion Hrun; subst.
  - auto.
  - split; [reflexivity|]. intros path Ha Hh. cbn [files].
    unfold Ledger.write_anchor_files.
    now rewrite !lookup_insert_ne by congruence.
Qed.

Lemma verified_tip_no_space (db : list Row) (tip : list N) :
  Ledger.verify_chain db = inr tip -> no_space tip = true /\ tip <> [].
Proof.
  intros H. rewrite verify_chain_loop in H.
  apply verify_loop_tip_form in H as [->|(s & ->)].
  - split; [reflexivity|discriminate].
  - split; [apply hexdigest_no_space|].
    intros E. pose proof (sha256_hex_length s) as Hl. rewrite E in Hl. discriminate.
Qed.

Lemma no_chars_one_line (s : list N) :
  no_char 10 s = true -> no_char 13 s = true -> one_line s = true.
Proof.
  unfold no_char, one_line. induction s as [|c s IH]; [reflexivity|].
  cbn [List.forallb]. intros H1 H2.
  apply andb_prop in H1 as [Ha H1]. apply andb_prop in H2 as [Hb H2].
  rewrite (IH H1 H2), andb_true_r.
  apply negb_true_iff in Ha, Hb. now rewrite Ha, Hb.
Qed.

Lemma one_line_strip (s : list N) : one_line s = true -> one_line (strip s) = true.
Proof.
  intros H. destruct (one_line_no_char s H) as [H1 H2].
  apply no_chars_one_line; now apply no_char_strip.
Qed.

Lemma one_line_app (a b : list N) :
  one_line (a ++ b) = one_line a && one_line b.
Proof. apply List.forallb_app. Qed.

Lemma verify_anchor_after_write (db : list Row) (tip af ah note ts : list N)
    (fs : gmap (list N) (list N)) :
  Ledger.verify_chain db = inr tip -> af <> ah ->
  one_line note = true -> one_line ts = true ->
  Ledger.verify_anchor db af (Ledger.write_anchor_files af ah tip note ts fs) = inr tt.
Proof.
  intros Hchain Hne Hnote Hts.
  destruct (verified_tip_no_space db tip Hchain) as [Hsp Hnonempty].
  unfold Ledger.verify_anchor, Ledger.read_anchor_file.
  rewrite Hchain, (write_anchor_files_anchor af ah tip note ts fs Hne).
  rewrite (parse_anchor_text tip ts note (no_space_one_line _ Hsp) Hts Hnote).
  rewrite lookup_insert_ne by (vm_compute; discriminate).
  rewrite lookup_insert_ne by (vm_compute; discriminate).
  rewrite lookup_insert_eq, (strip_no_space tip Hsp).
  destruct tip as [|c tip']; [congruence|]. cbn [truthy].
  now rewrite decide_True by reflexivity.
Qed.



(** X10, on a publish that fails for want of an SMTP configuration. *)
Lemma X10_publish_touches_two_files_witness :
  let out := Ledger.daily_publish mailer_unconfigured ts0 (u "2026-01-02")
               (u "2026-01-02") path_anchor path_history (u "EOD") world_sound in
  events (snd out) = events world_sound
  /\ files (snd out) !! u "notes.txt" = files world_sound !! u "notes.txt".
Proof.
  intros out.
  destruct (X10_publish_touches_two_files mailer_unconfigured ts0 (u "2026-01-02")
              (u "2026-01-02") path_anchor path_history (u "EOD") world_sound
              (snd out) (fst out)) as [Hev Hfiles].
  - apply surjective_pairing.
  - split; [exact Hev|]. apply Hfiles; vm_compute; discriminate.
Defined.

(** X12.  Two publishes in a row that both succeed leave the events
    unchanged, two new entries for the same tip at the end of the history,
    and in the anchor file the record of the second publish alone. *)
Theorem X12_publishing_twice (m1 m2 : Mailer)
    (ts1 dn1 dp1 label1 ts2 dn2 dp2 label2 anchor_file anchor_history : list N)
    (w w1 w2 : World) :
  anchor_file <> anchor_history ->
  Ledger.daily_publish m1 ts1 dn1 dp1 anchor_file anchor_history label1 w
    = (inr tt, w1) ->
  Ledger.daily_publish m2 ts2 dn2 dp2 anchor_file anchor_history label2 w1
    = (inr tt, w2) ->
  exists tip,
    Ledger.verify_chain (events w) = inr tip
    /\ events w2 = events w
    /\ files w2 !! anchor_history
       = Some (default [] (files w !! anchor_history)
               ++ history_entry ts1 tip (Ledger.publish_note dn1 label1)
               ++ history_entry ts2 tip (Ledger.publish_note dn2 label2))
    /\ files w2 !! anchor_file
       = Some (anchor_text tip ts2 (Ledger.publish_note dn2 label2)).
Proof.
  intros Hne H1 H2.
  destruct (daily_publish_outcome m1 ts1 dn1 dp1 anchor_file anchor_history label1 w)
    as [(e & _ & H)|(tip & r & Hchain & H & _)];
    cbn zeta in H; rewrite H in H1; inversion H1; subst; clear H1.
  destruct (daily_publish_outcome m2 ts2 dn2 dp2 anchor_file anchor_history label2
              {| events := events w;
                 files := Ledger.write_anchor_files anchor_file anchor_history tip
                            (Ledger.publish_note dn1 label1) ts1 (files w) |})
    as [(e & _ & H')|(tip' & r' & Hchain' & H' & _)];
    cbn zeta in H'; rewrite H' in H2; inversion H2; subst; clear H2.
  cbn [events files] in *. rewrite Hchain in Hchain'. inversion Hchain'; subst tip'.
  exists tip. split; [exact Hchain|]. split; [reflexivity|]. split.
  - rewrite write_anchor_files_history.
    rewrite lookup_insert_ne by congruence.
    rewrite write_anchor_files_history.
    rewrite lookup_insert_ne by congruence.
    cbn [from_option id]. now rewrite <- app_assoc.
  - now apply write_anchor_files_anchor.
Qed.

(** X12, on the sample world. *)
Lemma X12_publishing_twice_witness :
  exists w1 w2,
    Ledger.daily_publish mailer_configured ts0 (u "2026-01-02") (u "2026-01-02")
      path_anchor path_history (u "EOD") world_sound = (inr tt, w1)
    /\ Ledger.daily_publish mailer_configured (u "2026-01-02T23:59:59Z") (u "2026-01-02")
         (u "2026-01-02") path_anchor path_history (u "again") w1 = (inr tt, w2)
    /\ files w2 !! path_history
       = Some (history_entry ts0 Ledger.GENESIS_HASH (u "init")
               ++ history_entry ts0 (event_hash (sample_row 2))
                    (u "DAILY_ANCHOR 2026-01-02 EOD")
               ++ history_entry (u "2026-01-02T23:59:59Z") (event_hash (sample_row 2))
                    (u "DAILY_ANCHOR 2026-01-02 again")).
Proof.
  set (w1 := snd (Ledger.daily_publish mailer_configured ts0 (u "2026-01-02")
                    (u "2026-01-02") path_anchor path_history (u "EOD") world_sound)).
  set (w2 := snd (Ledger.daily_publish mailer_configured (u "2026-01-02T23:59:59Z")
                    (u "2026-01-02") (u "2026-01-02") path_anchor path_history
                    (u "again") w1)).
  assert (H1 : Ledger.daily_publish mailer_configured ts0 (u "2026-01-02")
                 (u "2026-01-02") path_anchor path_history (u "EOD") world_sound
               = (inr tt, w1)).
  { rewrite (surjective_pairing (Ledger.daily_publish _ _ _ _ _ _ _ world_sound)).
    apply f_equal2; [vm_compute; reflexivity|reflexivity]. }
  assert (H2 : Ledger.daily_publish mailer_configured (u "2026-01-02T23:59:59Z")
                 (u "2026-01-02") (u "2026-01-02") path_anchor path_history
                 (u "again") w1 = (inr tt, w2)).
  { rewrite (surjective_pairing (Ledger.daily_publish _ _ _ _ _ _ _ w1)).
    apply f_equal2; [vm_compute; reflexivity|reflexivity]. }
  exists w1, w2. split; [exact H1|]. split; [exact H2|].
  destruct (X12_publishing_twice mailer_configured mailer_configured ts0
              (u "2026-01-02") (u "2026-01-02") (u "EOD") (u "2026-01-02T23:59:59Z")
              (u "2026-01-02") (u "2026-01-02") (u "again") path_anchor path_history
              world_sound w1 w2) as (tip & Hchain & _ & Hhist & _).
  - vm_compute. discriminate.
  - exact H1.
  - exact H2.
  - rewrite Hhist. vm_compute in Hchain. inversion Hchain; subst tip.
    vm_compute. reflexivity.
Defined.

(** * The mail configuration *)

Lemma env_port (m : Mailer) :
  Ledger.env (environ m) (u "LEDGER_SMTP_PORT") (Some (u "587"))
  = Some (smtp_port_text m).
Proof.
  unfold smtp_port_text, Ledger.env.
  destruct (environ m !! u "LEDGER_SMTP_PORT") as [v|]; [|reflexivity].
  now destruct (decide (strip v = [])).
Qed.

(** X13.  [send_email] raises the [ValueError] of [int] when the port
    text is no number (the port is read before anything is checked), raises
    "Missing SMTP env vars" when the port is a number and one of the five
    other variables is unset or empty, and else returns what the SMTP
    exchange returns; without [LEDGER_SMTP_PORT] the port text is "587". *)
Theorem X13_mail_configuration (m : Mailer) (subject body : list N) :
  (int m (smtp_port_text m) = None ->
   Ledger.send_email m subject body
   = inl (ValueError (InvalidInt (smtp_port_text m))))
  /\ (forall port name,
        int m (smtp_port_text m) = Some port ->
        List.In name smtp_required ->
        Ledger.env (environ m) name None = None ->
        Ledger.send_email m subject body = inl (ValueError MissingSMTP))
  /\ (forall port host user pwd mail_from mail_to,
        int m (smtp_port_text m) = Some port ->
        Ledger.env (environ m) (u "LEDGER_SMTP_HOST") None = Some host ->
        Ledger.env (environ m) (u "LEDGER_SMTP_USER") None = Some user ->
        Ledger.env (environ m) (u "LEDGER_SMTP_PASS") None = Some pwd ->
        Ledger.env (environ m) (u "LEDGER_EMAIL_FROM") None = Some mail_from ->
        Ledger.env (environ m) (u "LEDGER_EMAIL_TO") None = Some mail_to ->
        Ledger.send_email m subject body
        = match smtp m host port user pwd mail_from mail_to subject body with
          | Some e => inl e
          | None => inr tt
          end)
  /\ (Ledger.env (environ m) (u "LEDGER_SMTP_PORT") None = None ->
      smtp_port_text m = u "587").
Proof.
  split; [|split; [|split]].
  - intros Hint. unfold Ledger.send_email. now rewrite env_port, Hint.
  - intros port name Hint Hin Hnone. unfold Ledger.send_email.
    rewrite env_port, Hint.
    cbn [smtp_required List.In] in Hin.
    destruct Hin as [<-|[<-|[<-|[<-|[<-|[]]]]]]; rewrite Hnone; cbn [truthy];
      rewrite ?andb_false_r; reflexivity.
  - intros port host user pwd mail_from mail_to Hint Hh Hu Hp Hf Ht.
    unfold Ledger.send_email. rewrite env_port, Hint, Hh, Hu, Hp, Hf, Ht.
    assert (Hnb : forall name v, Ledger.env (environ m) name None = Some v ->
                    truthy (Some v) = true).
    { intros name v Hv. unfold Ledger.env in Hv.
      destruct (environ m !! name) as [x|]; [|discriminate].
      destruct (decide (strip x = [])) as [|Hne]; [discriminate|].
      inversion Hv; subst. destruct v; [now cbn in Hne|reflexivity]. }
    rewrite (Hnb _ _ Hh), (Hnb _ _ Hu), (Hnb _ _ Hp), (Hnb _ _ Hf), (Hnb _ _ Ht).
    reflexivity.
  - intros Hport. unfold smtp_port_text, Ledger.env in *.
    destruct (environ m !! u "LEDGER_SMTP_PORT") as [v|]; [|reflexivity].
    destruct (decide (strip v = [])); [reflexivity|discriminate].
Qed.

(** X13, on three processes: a port that is no number, nothing set, all set. *)
Lemma X13_mail_configuration_witness :
  Ledger.send_email mailer_bad_port (u "s") (u "b")
    = inl (ValueError (InvalidInt (u "smtp")))
  /\ Ledger.send_email mailer_unconfigured (u "s") (u "b")
     = inl (ValueError MissingSMTP)
  /\ Ledger.send_email mailer_configured (u "s") (u "b") = inr tt.
Proof.
  split; [|split].
  - apply (proj1 (X13_mail_configuration mailer_bad_port (u "s") (u "b"))).
    vm_compute. reflexivity.
  - apply (proj1 (proj2 (X13_mail_configuration mailer_unconfigured (u "s") (u "b")))
             587%Z (u "LEDGER_SMTP_HOST")).
    + vm_compute. reflexivity.
    + left. reflexivity.
    + vm_compute. reflexivity.
  - rewrite (proj1 (proj2 (proj2 (X13_mail_configuration mailer_configured (u "s")
                                     (u "b"))))
               2525%Z (u "smtp.example.org") (u "ledger") (u "secret")
               (u "ledger@example.org") (u "audit@example.org"));
      vm_compute; reflexivity.
Defined.

(** * Canonical JSON and the order of keys *)

Section SortedUnique.
Context {A : Type} (key : A -> list N).

Lemma insert_by_permutation (x : A) (s : list A) :
  Permutation (insert_by key x s) (x :: s).
Proof.
  induction s as [|y s IH]; [reflexivity|]. cbn [insert_by].
  destruct (str_leb (key x) (key y)); [reflexivity|].
  rewrite IH. apply perm_swap.
Qed.

Lemma order_by_permutation (l : list A) : Permutation (order_by key l) l.
Proof.
  induction l as [|x l IH]; [reflexivity|]. cbn [order_by List.fold_right].
  rewrite insert_by_permutation. now constructor.
Qed.

Lemma sorted_unique (l1 : list A) :
  forall l2,
  StronglySorted (key_le key) l1 -> StronglySorted (key_le key) l2 ->
  Permutation l1 l2 -> NoDup (List.map key l1) -> l1 = l2.
Proof.
  induction l1 as [|x l1 IH]; intros l2 H1 H2 Hp Hnd.
  - apply Permutation_nil in Hp. now subst.
  - destruct l2 as [|y l2].
    { apply Permutation_sym, Permutation_nil in Hp. discriminate. }
    apply StronglySorted_inv in H1 as [H1 Hx].
    apply StronglySorted_inv in H2 as [H2 Hy].
    assert (Hxy : x = y).
    { assert (Hin_y : List.In y (x :: l1))
        by (apply (Permutation_in _ (Permutation_sym Hp)); now left).
      assert (Hin_x : List.In x (y :: l2))
        by (apply (Permutation_in _ Hp); now left).
      destruct Hin_y as [E|Hin_y]; [exact E|].
      destruct Hin_x as [E|Hin_x]; [now symmetry|].
      assert (Hle1 : key_le key x y)
        by exact (proj1 (List.Forall_forall _ _) Hx y Hin_y).
      assert (Hle2 : key_le key y x)
        by exact (proj1 (List.Forall_forall _ _) Hy x Hin_x).
      assert (Hk : key x = key y) by exact (str_leb_antisym _ _ Hle1 Hle2).
      cbn [List.map] in Hnd. apply NoDup_cons in Hnd as [Hnot _].
      exfalso. apply Hnot. apply list_elem_of_In. rewrite Hk.
      now apply List.in_map. }
    subst y. f_equal. apply IH; try assumption.
    + exact (Permutation_cons_inv Hp).
    + cbn [List.map] in Hnd. now apply NoDup_cons in Hnd as [_ Hnd].
Qed.

Lemma order_by_order_free (l1 l2 : list A) :
  Permutation l1 l2 -> NoDup (List.map key l1) ->
  order_by key l1 = order_by key l2.
Proof.
  intros Hp Hnd. apply sorted_unique.
  - apply order_by_sorted.
  - apply order_by_sorted.
  - rewrite !order_by_permutation. exact Hp.
  - now rewrite (Permutation_map key (order_by_permutation l1)).
Qed.

End SortedUnique.

(** X14.  [canonical_json] of a dict does not depend on the order in which
    its keys were inserted: two item lists with distinct keys that are
    permutations of each other give the same text. *)
Theorem X14_canonical_json_key_order (items1 items2 : list (list N * json)) :
  Permutation items1 items2 -> NoDup (List.map fst items1) ->
  Ledger.canonical_json (JDict items1) = Ledger.canonical_json (JDict items2).
Proof.
  intros Hp Hnd. unfold Ledger.canonical_json. cbn [json_dumps].
  f_equal. f_equal. f_equal. f_equal.
  apply order_by_order_free.
  - now apply Permutation_map.
  - rewrite List.map_map.
    erewrite List.map_ext; [exact Hnd|]. now intros [k x].
Qed.

(** X14, on the payload keys of a memory in two orders. *)
Lemma X14_canonical_json_key_order_witness :
  Ledger.canonical_json
    (JDict [(u "text", JStr (u "t")); (u "category", JStr (u "belief"));
            (u "memory_id", JStr (u "m-1"))])
  = Ledger.canonical_json
      (JDict [(u "category", JStr (u "belief")); (u "memory_id", JStr (u "m-1"));
              (u "text", JStr (u "t"))]).
Proof.
  apply X14_canonical_json_key_order.
  - eapply perm_trans; [apply perm_swap|]. apply perm_skip. apply perm_swap.
  - vm_compute. repeat constructor; rewrite ?list_elem_of_In; cbn; intuition discriminate.
Defined.

(** * ai_layer.py: remember *)

Lemma ai_verify_loop_same (l : list Row) :
  forall p i, AiLayer.verify_loop p i l = Ledger.verify_loop p i l.
Proof.
  induction l as [|e l IH]; intros p i; [reflexivity|].
  cbn [AiLayer.verify_loop Ledger.verify_loop]. now rewrite IH.
Qed.

(** X22.  ai_layer.py's [verify_chain] and ledger.py's return the same
    hash or raise the same error on every table. *)
Theorem X22_one_verifier (conn : list Row) :
  AiLayer.verify_chain conn = Ledger.verify_chain conn.
Proof.
  unfold AiLayer.verify_chain, Ledger.verify_chain.
  destruct (select_order_by_created_at_asc conn) as [|e l]; [reflexivity|].
  apply ai_verify_loop_same.
Qed.

Lemma remember_cases (now memory_id event_uuid af ah category text : list N)
    (w : AiLayer.Store) :
  let out := AiLayer.remember now memory_id event_uuid af ah category text w in
  out = (inl IntegrityError, w)
  \/ exists r,
       out = (inr memory_id,
              {| AiLayer.db_events := AiLayer.db_events w ++ [r];
                 AiLayer.db_memories :=
                   AiLayer.db_memories w
                   ++ [AiLayer.Mem (Some memory_id) now category text];
                 AiLayer.fs :=
                   Ledger.write_anchor_files af ah (event_hash r)
                     (u "memory.add " ++ category ++ u " " ++ memory_id) now
                     (AiLayer.fs w) |})
       /\ hash_ok r
       /\ prev_hash r = Ledger.get_last_event_hash (AiLayer.db_events w)
       /\ now = created_at r
       /\ event_type r = u "memory.add" /\ entity_type r = u "memory"
       /\ entity_id r = memory_id /\ event_id r = event_uuid
       /\ ~ List.In (Some memory_id)
            (List.map AiLayer.memory_id (AiLayer.db_memories w)).
Proof.
  cbn zeta. unfold AiLayer.remember, AiLayer.insert_memory.
  cbn [AiLayer.memory_id].
  destruct (List.existsb _ (AiLayer.db_memories w)) eqn:Ex; [now left|].
  destruct (AiLayer.append_event _ _ _ _ _ _ (AiLayer.db_events w)) as [res ev] eqn:E.
  rewrite <- append_event_same in E.
  pose proof E as E'. apply append_event_cases in E'
    as [(r & -> & -> & Hok & Hprev & Hts & Hid & _)|(-> & ->)]; [|now left].
  right. exists r. split; [reflexivity|].
  assert (Hrow : event_type r = u "memory.add" /\ entity_type r = u "memory"
                 /\ entity_id r = memory_id).
  { apply append_event_inr in E as [_ Hc]. apply app_inv_head in Hc.
    inversion Hc. auto. }
  destruct Hrow as (H1 & H2 & H3).
  repeat (split; [first [assumption|now symmetry]|]).
  intros Hin. apply List.in_map_iff in Hin as (x & Hx & Hin).
  assert (List.existsb (fun x => bool_decide (AiLayer.memory_id x = Some memory_id))
            (AiLayer.db_memories w) = true).
  { apply List.existsb_exists. exists x. split; [exact Hin|].
    now apply bool_decide_eq_true. }
  congruence.
Qed.

Lemma existsb_In {A B : Type} `{EqDecision B} (f : A -> B) (y : B) (l : list A) :
  List.existsb (fun x => bool_decide (f x = y)) l = true <-> List.In y (List.map f l).
Proof.
  rewrite List.existsb_exists, List.in_map_iff. split.
  - intros (x & Hin & Hx). apply bool_decide_eq_true in Hx. eauto.
  - intros (x & Hx & Hin). exists x. split; [exact Hin|]. now apply bool_decide_eq_true.
Qed.

(** X15.  [remember] raises [sqlite3.IntegrityError] exactly when the
    [memory_id] is already stored, or the event's [event_id] or its computed
    hash is; then nothing is kept, not even the memory row inserted before
    the event was rejected, and no file is written. *)
Theorem X15_remember_integrity_error
    (now memory_id event_uuid af ah category text : list N) (w : AiLayer.Store) :
  let payload :=
    JDict [ (u "memory_id", JStr memory_id); (u "created_at", JStr now);
            (u "category", JStr category); (u "text", JStr text) ] in
  let h := AiLayer.sha256_hex
             (material (AiLayer.get_last_event_hash (AiLayer.db_events w)) now
                (u "memory.add") (u "memory") memory_id (AiLayer.canonical_json payload)) in
  let clash :=
    List.In (Some memory_id) (List.map AiLayer.memory_id (AiLayer.db_memories w))
    \/ List.In event_uuid (List.map event_id (AiLayer.db_events w))
    \/ List.In h (List.map event_hash (AiLayer.db_events w)) in
  (clash ->
   AiLayer.remember now memory_id event_uuid af ah category text w
   = (inl IntegrityError, w))
  /\ (forall w',
        AiLayer.remember now memory_id event_uuid af ah category text w
        = (inl IntegrityError, w') ->
        clash /\ w' = w).
Proof.
  intros payload h clash.
  pose proof (existsb_In AiLayer.memory_id (Some memory_id) (AiLayer.db_memories w)) as Hm.
  pose proof (existsb_In event_id event_uuid (AiLayer.db_events w)) as Hi.
  pose proof (existsb_In event_hash h (AiLayer.db_events w)) as Hh.
  unfold AiLayer.remember, AiLayer.insert_memory, AiLayer.append_event, insert_event.
  cbn [AiLayer.memory_id event_id event_hash]. fold payload.
  change (AiLayer.sha256_hex (join (u "|") _)) with h.
  destruct (List.existsb _ (AiLayer.db_memories w)) eqn:Em.
  - split; [reflexivity|]. intros w' H. inversion H. split; [|reflexivity].
    left. now apply Hm.
  - destruct (List.existsb (fun x => bool_decide (event_id x = event_uuid)) _) eqn:Ei.
    + cbn [orb]. split; [reflexivity|]. intros w' H. inversion H. split; [|reflexivity].
      right. left. now apply Hi.
    + destruct (List.existsb (fun x => bool_decide (event_hash x = h)) _) eqn:Eh.
      * cbn [orb]. split; [reflexivity|]. intros w' H. inversion H.
        split; [|reflexivity]. right. right. now apply Hh.
      * cbn [orb]. split; [|discriminate].
        intros [Hc|[Hc|Hc]]; [apply Hm in Hc|apply Hi in Hc|apply Hh in Hc]; congruence.
Qed.

(** X15, with a stored [memory_id], then with a stored [event_id]. *)
Lemma X15_remember_integrity_error_witness :
  let w := {| AiLayer.db_events := sample_db;
              AiLayer.db_memories := [AiLayer.Mem (Some (u "M-0")) ts0 (u "note") (u "y")];
              AiLayer.fs := ∅ |} in
  AiLayer.remember (u "2026-02-01T00:00:00Z") (u "M-0") (u "id-9") path_anchor
    path_history (u "note") (u "x") w = (inl IntegrityError, w)
  /\ AiLayer.remember (u "2026-02-01T00:00:00Z") (u "M-1") (u "id-1") path_anchor
       path_history (u "note") (u "x") w = (inl IntegrityError, w).
Proof.
  cbn zeta. split.
  - apply (proj1 (X15_remember_integrity_error (u "2026-02-01T00:00:00Z") (u "M-0")
                    (u "id-9") path_anchor path_history (u "note") (u "x") _)).
    left. vm_compute. now left.
  - apply (proj1 (X15_remember_integrity_error (u "2026-02-01T00:00:00Z") (u "M-1")
                    (u "id-1") path_anchor path_history (u "note") (u "x") _)).
    right. left. vm_compute. now left.
Defined.

Lemma verify_chain_snoc (conn : list Row) (r : Row) (tip : list N) :
  Ledger.verify_chain conn = inr tip ->
  nondecreasing (List.map created_at (conn ++ [r])) = true ->
  hash_ok r -> prev_hash r = Ledger.get_last_event_hash conn ->
  prev_hash r = tip /\ Ledger.verify_chain (conn ++ [r]) = inr (event_hash r).
Proof.
  intros Hchain Hts Hok Hprev.
  assert (Htip : Ledger.get_last_event_hash conn = tip).
  { rewrite last_hash_is_last. rewrite verify_chain_loop in Hchain.
    symmetry. exact (verify_loop_tip _ _ _ _ Hchain). }
  split; [congruence|].
  rewrite verify_chain_loop in Hchain |- *.
  unfold select_order_by_created_at_asc in *.
  rewrite (order_by_nondecreasing created_at _ Hts).
  rewrite List.map_app in Hts. apply nondecreasing_app_l in Hts.
  rewrite (order_by_nondecreasing created_at _ Hts) in Hchain.
  rewrite verify_loop_app, Hchain. cbn [Ledger.verify_loop].
  rewrite decide_True by congruence.
  rewrite decide_True by exact Hok. reflexivity.
Qed.

(** X16.  On a chain that verifies, with a clock not behind the stored
    rows, two distinct paths and one-line texts, a [remember] that returns
    gives back the new [memory_id], has added that memory and one
    "memory.add" event linked to the former tip, and leaves a chain and an
    anchor file that ledger.py's [verify_chain] and [verify_anchor]
    accept. *)
Theorem X16_remember_keeps_ledger_verifiable
    (now memory_id event_uuid af ah category text : list N)
    (w w' : AiLayer.Store) (tip out : list N) :
  Ledger.verify_chain (AiLayer.db_events w) = inr tip ->
  nondecreasing (List.map created_at (AiLayer.db_events w) ++ [now]) = true ->
  af <> ah ->
  one_line now = true -> one_line category = true -> one_line memory_id = true ->
  AiLayer.remember now memory_id event_uuid af ah category text w = (inr out, w') ->
  out = memory_id
  /\ AiLayer.db_memories w'
     = AiLayer.db_memories w ++ [AiLayer.Mem (Some memory_id) now category text]
  /\ (exists r, AiLayer.db_events w' = AiLayer.db_events w ++ [r]
        /\ event_type r = u "memory.add" /\ entity_id r = memory_id
        /\ prev_hash r = tip
        /\ Ledger.verify_chain (AiLayer.db_events w') = inr (event_hash r))
  /\ Ledger.verify_anchor (AiLayer.db_events w') af (AiLayer.fs w') = inr tt.
Proof.
  intros Hchain Hts Hne Hc Hcat Hid Hrun.
  assert (Hnote : one_line (u "memory.add " ++ category ++ u " " ++ memory_id) = true).
  { rewrite !one_line_app, Hcat, Hid. reflexivity. }
  destruct (remember_cases now memory_id event_uuid af ah category text w)
    as [Hf|(r & Hs & Hok & Hprev & Hcr & Het & _ & Heid & _)];
    cbn zeta in *; [rewrite Hf in Hrun; discriminate|].
  rewrite Hs in Hrun. inversion Hrun; subst out w'; clear Hrun.
  cbn [AiLayer.db_events AiLayer.db_memories AiLayer.fs].
  assert (Hts' : nondecreasing (List.map created_at (AiLayer.db_events w ++ [r]))
                 = true).
  { rewrite List.map_app. cbn [List.map]. now rewrite <- Hcr. }
  destruct (verify_chain_snoc _ r tip Hchain Hts' Hok Hprev) as [Hp Hv].
  split; [reflexivity|]. split; [reflexivity|]. split.
  - exists r. auto.
  - exact (verify_anchor_after_write _ _ _ _ _ _ _ Hv Hne Hnote Hc).
Qed.

(** X16, with a memory added after the three sample rows. *)
Lemma X16_remember_keeps_ledger_verifiable_witness :
  let w := {| AiLayer.db_events := sample_db; AiLayer.db_memories := [];
              AiLayer.fs := ∅ |} in
  let run := AiLayer.remember (u "2026-02-01T00:00:00Z") (u "M-1") (u "id-9")
               path_anchor path_history (u "note") (u "x") w in
  fst run = inr (u "M-1")
  /\ Ledger.verify_anchor (AiLayer.db_events (snd run)) path_anchor (AiLayer.fs (snd run))
     = inr tt.
Proof.
  cbn zeta. split; [vm_compute; reflexivity|].
  refine (proj2 (proj2 (proj2 (X16_remember_keeps_ledger_verifiable
    (u "2026-02-01T00:00:00Z") (u "M-1") (u "id-9") path_anchor path_history
    (u "note") (u "x")
    {| AiLayer.db_events := sample_db; AiLayer.db_memories := []; AiLayer.fs := ∅ |}
    (snd (AiLayer.remember (u "2026-02-01T00:00:00Z") (u "M-1") (u "id-9")
               path_anchor path_history (u "note") (u "x")
               {| AiLayer.db_events := sample_db; AiLayer.db_memories := [];
                  AiLayer.fs := ∅ |}))
    (event_hash (sample_row 2)) (u "M-1") _ _ _ _ _ _ _)))).
  - vm_compute; reflexivity.
  - vm_compute; reflexivity.
  - vm_compute; discriminate.
  - vm_compute; reflexivity.
  - vm_compute; reflexivity.
  - vm_compute; reflexivity.
  - vm_compute; reflexivity.
Defined.

(** * The text parsers of warn.py and harm_report.py *)

Lemma split_from_nonempty (sep : list N) (s : list N) :
  forall k, split_from sep k s <> [].
Proof.
  induction s as [|c r IH]; intros k; [discriminate|].
  cbn [split_from]. destruct k as [|k]; [|apply IH].
  destruct (startswith (c :: r) sep); [discriminate|].
  destruct (split_from sep 0 r); discriminate.
Qed.

Lemma index_first {A : Type} (l : list A) :
  l <> [] -> exists x, index l 0 = inr x /\ List.hd_error l = Some x.
Proof. destruct l as [|x l]; [congruence|]. intros _. now exists x. Qed.

Lemma contains_split (sep s : list N) :
  sep <> [] -> contains sep s = true ->
  exists a b more, split sep s = a :: b :: more.
Proof.
  intros Hsep. unfold split. induction s as [|c r IH]; intros H.
  - destruct sep; [congruence|discriminate].
  - cbn [contains] in H. cbn [split_from].
    destruct (startswith (c :: r) sep) eqn:E.
    + pose proof (split_from_nonempty sep r (List.length sep - 1)) as Hn.
      destruct (split_from sep (List.length sep - 1) r) as [|b more]; [congruence|].
      now exists [], b, more.
    + cbn in H. destruct (IH H) as (a & b & more & ->). now exists (c :: a), b, more.
Qed.

Lemma split_char_no_char (x : N) (s : list N) :
  List.Forall (fun part => no_char x part = true) (split [x] s).
Proof.
  unfold split. induction s as [|c r IH]; [repeat constructor|].
  cbn [split_from startswith List.length Nat.sub].
  destruct r as [|c' r'] eqn:Er.
  - cbn. destruct (x =? c)%N eqn:E; cbn.
    + repeat constructor.
    + repeat constructor. cbn. rewrite N.eqb_sym, E. reflexivity.
  - rewrite <- Er in *. clear Er.
    replace (startswith r []) with true by now destruct r.
    rewrite andb_true_r. destruct (x =? c)%N eqn:E.
    + constructor; [reflexivity|exact IH].
    + destruct (split_from [x] 0 r) as [|l ls]; [repeat constructor; cbn; now rewrite N.eqb_sym, E|].
      inversion IH; subst. constructor; [|assumption].
      cbn. rewrite N.eqb_sym, E. assumption.
Qed.

Lemma lstrip_idem (s : list N) : lstrip (lstrip s) = lstrip s.
Proof.
  induction s as [|c r IH]; [reflexivity|].
  cbn [lstrip]. destruct (isspace c) eqn:E; [exact IH|].
  cbn [lstrip]. now rewrite E.
Qed.

Lemma strip_idem (s : list N) : strip (strip s) = strip s.
Proof.
  unfold strip. rewrite lstrip_rstrip, lstrip_idem. apply rstrip_idem.
Qed.

(** Where [sep] starts at no position of [a] in [a ++ rest], the first
    part of the split begins with [a]. *)
Lemma split_skip (sep a rest : list N) :
  (forall a1 b, a = a1 ++ b -> b <> [] -> startswith (b ++ rest) sep = false) ->
  exists l ls, split sep rest = l :: ls /\ split sep (a ++ rest) = (a ++ l) :: ls.
Proof.
  unfold split. induction a as [|c a IH]; intros H.
  - pose proof (split_from_nonempty sep rest 0) as Hn. cbn [app].
    destruct (split_from sep 0 rest) as [|l ls]; [congruence|]. now exists l, ls.
  - destruct IH as (l & ls & E1 & E2).
    { intros a1 b -> Hb. apply (H (c :: a1) b); [reflexivity|exact Hb]. }
    exists l, ls. split; [exact E1|].
    pose proof (H [] (c :: a) eq_refl ltac:(discriminate)) as Hc.
    cbn [app] in Hc |- *. cbn [split_from]. rewrite Hc.
    now rewrite E2.
Qed.

Lemma split_from_skip (sep a rest : list N) :
  split_from sep (List.length a) (a ++ rest) = split_from sep 0 rest.
Proof.
  induction a as [|c a IH]; [reflexivity|]. exact IH.
Qed.

Lemma split_at_sep (sep rest : list N) :
  sep <> [] -> split sep (sep ++ rest) = [] :: split sep rest.
Proof.
  intros Hsep. destruct sep as [|x sep]; [congruence|].
  unfold split. cbn [app split_from].
  replace (startswith (x :: sep ++ rest) (x :: sep)) with true.
  - cbn [List.length Nat.sub]. rewrite Nat.sub_0_r. now rewrite split_from_skip.
  - symmetry. clear. revert x. induction sep as [|y sep IH]; intros x; cbn [startswith app].
    + rewrite N.eqb_refl. now destruct rest.
    + rewrite N.eqb_refl. apply (IH y).
Qed.

Lemma no_char_no_start (x : N) (a rest : list N) :
  no_char x a = true ->
  forall a1 b, a = a1 ++ b -> b <> [] -> startswith (b ++ rest) [x] = false.
Proof.
  intros H a1 b -> Hb. rewrite no_char_app in H. apply andb_prop in H as [_ H].
  destruct b as [|c b]; [congruence|]. cbn in H |- *.
  apply andb_prop in H as [H _]. rewrite N.eqb_sym.
  destruct (c =? x)%N; [discriminate|reflexivity].
Qed.

Lemma split_char_first (x : N) (a rest : list N) :
  no_char x a = true -> exists more, split [x] (a ++ x :: rest) = a :: more.
Proof.
  intros H.
  destruct (split_skip [x] a (x :: rest) (no_char_no_start x a _ H)) as (l & ls & E1 & E2).
  change (x :: rest) with ([x] ++ rest) in E1.
  rewrite split_at_sep in E1 by discriminate. inversion E1; subst.
  rewrite E2, app_nil_r. eauto.
Qed.

Lemma split_char_none (x : N) (a : list N) :
  no_char x a = true -> split [x] a = [a].
Proof.
  intros H.
  destruct (split_skip [x] a [] (no_char_no_start x a _ H)) as (l & ls & E1 & E2).
  cbn in E1. inversion E1; subst. now rewrite !app_nil_r in E2.
Qed.

(** ** Never an [IndexError] *)

Lemma parse_decision_id_value (s : list N) :
  exists first more, split (u "|") s = first :: more
    /\ Warn.parse_decision_id s = inr (strip first).
Proof.
  pose proof (split_from_nonempty (u "|") s 0) as Hn. fold (split (u "|") s) in Hn.
  unfold Warn.parse_decision_id.
  destruct (split (u "|") s) as [|first more]; [congruence|].
  now exists first, more.
Qed.

Lemma parse_type_value (s : list N) :
  Warn.parse_type s = inr None /\ contains (u "Type:") s = false
  \/ exists a part more first more',
       contains (u "Type:") s = true
       /\ split (u "Type:") s = a :: part :: more
       /\ split (u "|") part = first :: more'
       /\ Warn.parse_type s = inr (Some (strip first)).
Proof.
  unfold Warn.parse_type. destruct (contains (u "Type:") s) eqn:E; [|now left].
  right. destruct (contains_split (u "Type:") s ltac:(discriminate) E)
    as (a & part & more & Hs).
  rewrite Hs. cbn [negb index List.nth_error].
  pose proof (split_from_nonempty (u "|") part 0) as Hn. fold (split (u "|") part) in Hn.
  destruct (split (u "|") part) as [|first more'] eqn:Ep; [congruence|].
  exists a, part, more, first, more'. cbn [index List.nth_error]. auto.
Qed.

Lemma parse_harms_value (s : list N) :
  exists part, no_char 124 part = true
    /\ Warn.parse_harms s
       = inr (List.map strip
                (List.filter (fun h => match strip h with [] => false | _ => true end)
                   (split (u ",") part))).
Proof.
  unfold Warn.parse_harms. destruct (contains (u "Harm:") s) eqn:E.
  - destruct (contains_split (u "Harm:") s ltac:(discriminate) E)
      as (a & part & more & Hs).
    rewrite Hs. cbn [negb index List.nth_error].
    destruct (contains (u "|") part) eqn:Ec.
    + pose proof (split_char_no_char 124 part) as Hf.
      change [124%N] with (u "|") in Hf.
      destruct (split (u "|") part) as [|first more'] eqn:Ep.
      { exfalso. exact (split_from_nonempty (u "|") part 0 Ep). }
      inversion Hf; subst. exists first. cbn [index List.nth_error]. auto.
    + exists part. split; [|reflexivity].
      clear Hs E. induction part as [|c r IH]; [reflexivity|].
      cbn [contains] in Ec. apply orb_false_elim in Ec as [E1 E2].
      cbn [no_char List.forallb]. fold (no_char 124 r). rewrite (IH E2), andb_true_r.
      cbn [startswith] in E1. change (u "|") with [124%N] in E1. cbn [startswith] in E1.
      rewrite N.eqb_sym. destruct (124 =? c)%N; [|reflexivity].
      now destruct r.
  - exists []. split; reflexivity.
Qed.

Lemma split_from_keeps_no_char (y : N) (sep s : list N) :
  no_char y s = true ->
  forall k, List.Forall (fun part => no_char y part = true) (split_from sep k s).
Proof.
  induction s as [|c r IH]; intros H k; [repeat constructor|].
  cbn [no_char List.forallb] in H. fold (no_char y r) in H.
  apply andb_prop in H as [Hc Hr].
  cbn [split_from]. destruct k as [|k]; [|exact (IH Hr k)].
  destruct (startswith (c :: r) sep).
  - constructor; [reflexivity|exact (IH Hr _)].
  - pose proof (IH Hr 0%nat) as Hf.
    destruct (split_from sep 0 r) as [|l ls].
    + repeat constructor. cbn [no_char List.forallb]. now rewrite Hc.
    + inversion Hf; subst. constructor; [|assumption].
      cbn [no_char List.forallb]. fold (no_char y l). now rewrite Hc.
Qed.

(** X17.  The text parsers never raise: [parse_decision_id],
    [parse_outcome_id] and [parse_harms] return a value for every text, and
    [parse_type] returns [None] exactly when "Type:" is not in the text (the
    index 1 it takes after that test is always there). *)
Theorem X17_parsers_never_raise (text : list N) :
  (exists v, Warn.parse_decision_id text = inr v)
  /\ (exists v, HarmReport.parse_outcome_id text = inr v)
  /\ (exists v, Warn.parse_harms text = inr v)
  /\ (Warn.parse_type text = inr None /\ contains (u "Type:") text = false
      \/ exists v, Warn.parse_type text = inr (Some v)
                   /\ contains (u "Type:") text = true).
Proof.
  split; [|split; [|split]].
  - destruct (parse_decision_id_value text) as (f & m & _ & H). eauto.
  - destruct (parse_decision_id_value text) as (f & m & Hs & _).
    unfold HarmReport.parse_outcome_id. rewrite Hs. cbn [index List.nth_error].
    destruct (startswith (strip f) (u "O-")); eauto.
  - destruct (parse_harms_value text) as (part & _ & H). eauto.
  - destruct (parse_type_value text) as [H|(a & part & more & f & m & Hc & _ & _ & H)];
      [now left|right; eauto].
Qed.

(** X18.  What the parsers return is trimmed and holds no "|": an id, a
    type and an outcome id (which starts with "O-") are fixed by [strip];
    every harm is non-empty, fixed by [strip] and free of "," and "|". *)
Theorem X18_parsed_fields_are_clean (text : list N) :
  (forall v, Warn.parse_decision_id text = inr v ->
     strip v = v /\ no_char 124 v = true)
  /\ (forall v, Warn.parse_type text = inr (Some v) ->
        strip v = v /\ no_char 124 v = true)
  /\ (forall v, HarmReport.parse_outcome_id text = inr (Some v) ->
        strip v = v /\ no_char 124 v = true /\ startswith v (u "O-") = true)
  /\ (forall hs h, Warn.parse_harms text = inr hs -> List.In h hs ->
        h <> [] /\ strip h = h /\ no_char 44 h = true /\ no_char 124 h = true).
Proof.
  assert (Hfirst : forall s first more, split (u "|") s = first :: more ->
            strip (strip first) = strip first /\ no_char 124 (strip first) = true).
  { intros s first more Hs. split; [apply strip_idem|].
    apply no_char_strip. pose proof (split_char_no_char 124 s) as Hf.
    change [124%N] with (u "|") in Hf. rewrite Hs in Hf. now inversion Hf. }
  split; [|split; [|split]].
  - intros v Hv. destruct (parse_decision_id_value text) as (f & m & Hs & H).
    rewrite H in Hv. inversion Hv; subst. exact (Hfirst _ _ _ Hs).
  - intros v Hv.
    destruct (parse_type_value text) as [[H _]|(a & part & more & f & m & _ & _ & Hs & H)];
      rewrite H in Hv; inversion Hv; subst. exact (Hfirst _ _ _ Hs).
  - intros v Hv. destruct (parse_decision_id_value text) as (f & m & Hs & _).
    unfold HarmReport.parse_outcome_id in Hv. rewrite Hs in Hv.
    cbn [index List.nth_error] in Hv.
    destruct (startswith (strip f) (u "O-")) eqn:E; inversion Hv; subst.
    destruct (Hfirst _ _ _ Hs). auto.
  - intros hs h Hv Hin. destruct (parse_harms_value text) as (part & Hp & H).
    rewrite H in Hv. inversion Hv; subst. clear Hv H.
    apply List.in_map_iff in Hin as (x & <- & Hin).
    apply List.filter_In in Hin as [Hin Hx].
    split; [now destruct (strip x)|]. split; [apply strip_idem|].
    split; apply no_char_strip.
    + pose proof (split_char_no_char 44 part) as Hf.
      exact (proj1 (List.Forall_forall _ _) Hf x Hin).
    + pose proof (split_from_keeps_no_char 124 (u ",") part Hp 0) as Hf.
      exact (proj1 (List.Forall_forall _ _) Hf x Hin).
Qed.

(** X18, for the type of a sample decision. *)
Lemma X18_parsed_fields_are_clean_witness :
  strip (u "hire") = u "hire" /\ no_char 124 (u "hire") = true.
Proof.
  exact (proj1 (proj2 (X18_parsed_fields_are_clean (u "D-7 | Type: hire | Alice")))
           (u "hire") eq_refl).
Defined.

(** X19.  For a text that starts with a field without "|", followed by
    "|" or by nothing, [parse_decision_id] returns the trimmed field, and
    [parse_outcome_id] returns it when it starts with "O-" and [None]
    otherwise. *)
Theorem X19_leading_field (id rest : list N) :
  no_char 124 id = true ->
  Warn.parse_decision_id (id ++ u "|" ++ rest) = inr (strip id)
  /\ Warn.parse_decision_id id = inr (strip id)
  /\ HarmReport.parse_outcome_id (id ++ u "|" ++ rest)
     = inr (if startswith (strip id) (u "O-") then Some (strip id) else None)
  /\ HarmReport.parse_outcome_id id
     = inr (if startswith (strip id) (u "O-") then Some (strip id) else None).
Proof.
  intros H. destruct (split_char_first 124 id rest H) as (more & Hs).
  unfold Warn.parse_decision_id, HarmReport.parse_outcome_id.
  change (u "|" ++ rest) with (124%N :: rest). change (u "|") with [124%N].
  rewrite Hs, (split_char_none 124 id H). cbn [index List.nth_error].
  split; [reflexivity|]. split; [reflexivity|].
  split; now destruct (startswith (strip id) (u "O-")).
Qed.

(** X19, on a sample outcome. *)
Lemma X19_leading_field_witness :
  Warn.parse_decision_id (u "O-3 | Harm: delay, cost | D-7") = inr (u "O-3")
  /\ Warn.parse_decision_id (u "O-3 ") = inr (u "O-3")
  /\ HarmReport.parse_outcome_id (u "O-3 | Harm: delay, cost | D-7")
     = inr (Some (u "O-3"))
  /\ HarmReport.parse_outcome_id (u "O-3 ") = inr (Some (u "O-3")).
Proof.
  exact (X19_leading_field (u "O-3 ") (u " Harm: delay, cost | D-7") eq_refl).
Defined.

(** ** The field after a tag *)

Lemma startswith_self (sep rest : list N) : startswith (sep ++ rest) sep = true.
Proof.
  induction sep as [|x sep IH]; [now destruct rest|].
  cbn [app startswith]. now rewrite N.eqb_refl.
Qed.

Lemma startswith_app_cases (b : list N) :
  forall sep rest, startswith (b ++ rest) sep = true ->
  startswith b sep = true
  \/ exists q, sep = b ++ q /\ q <> [] /\ startswith rest q = true.
Proof.
  induction b as [|c b IH]; intros sep rest H.
  - destruct sep as [|x sep]; [now left|]. right. exists (x :: sep).
    split; [reflexivity|]. split; [discriminate|exact H].
  - destruct sep as [|x sep]; [now left|].
    cbn [app startswith] in H |- *. apply andb_prop in H as [Hx H].
    apply N.eqb_eq in Hx. subst c. rewrite N.eqb_refl. cbn [andb].
    destruct (IH sep rest H) as [Hl|(q & -> & Hq & Hs)]; [now left|].
    right. now exists q.
Qed.

Lemma contains_startswith (sep b : list N) :
  b <> [] -> startswith b sep = true -> contains sep b = true.
Proof.
  destruct b as [|c b]; [congruence|]. intros _ H. cbn [contains]. now rewrite H.
Qed.

Lemma contains_app_r (sep a b : list N) :
  contains sep b = true -> contains sep (a ++ b) = true.
Proof.
  intros H. induction a as [|c a IH]; [exact H|].
  cbn [app contains]. rewrite IH. apply orb_true_r.
Qed.

Lemma contains_suffix (sep a b : list N) :
  contains sep (a ++ b) = false -> contains sep b = false.
Proof.
  intros H. destruct (contains sep b) eqn:E; [|reflexivity].
  now rewrite (contains_app_r sep a b E) in H.
Qed.

Lemma contains_tagged (sep pre rest : list N) :
  sep <> [] -> contains sep (pre ++ sep ++ rest) = true.
Proof.
  intros Hsep. apply contains_app_r, contains_startswith.
  - destruct sep; [congruence|discriminate].
  - apply startswith_self.
Qed.

(** A tag whose first character does not come again in it cannot start
    inside a text without the tag that stands before the tag itself. *)
Lemma no_start_before_tag (x : N) (tail pre rest : list N) :
  no_char x tail = true -> contains (x :: tail) pre = false ->
  forall a1 b, pre = a1 ++ b -> b <> [] ->
  startswith (b ++ (x :: tail) ++ rest) (x :: tail) = false.
Proof.
  intros Hx Hpre a1 b -> Hb.
  destruct (startswith (b ++ (x :: tail) ++ rest) (x :: tail)) eqn:E; [|reflexivity].
  exfalso. apply contains_suffix in Hpre.
  destruct (startswith_app_cases b _ _ E) as [Hl|(q & Hsep & Hq & Hs)].
  - now rewrite (contains_startswith _ _ Hb Hl) in Hpre.
  - destruct b as [|c b]; [congruence|]. destruct q as [|z q]; [congruence|].
    cbn [app] in Hsep. inversion Hsep; subst.
    rewrite no_char_app in Hx. apply andb_prop in Hx as [_ Hx].
    cbn [no_char List.forallb] in Hx. apply andb_prop in Hx as [Hz _].
    cbn [app startswith] in Hs. apply andb_prop in Hs as [Hs _].
    rewrite Hs in Hz. discriminate.
Qed.

(** Nor inside a text without the tag that is followed by a character
    the tag does not have. *)
Lemma no_start_before_bar (y : N) (sep part rest : list N) :
  sep <> [] -> no_char y sep = true -> contains sep part = false ->
  forall a1 b, part ++ [y] = a1 ++ b -> b <> [] ->
  startswith (b ++ rest) sep = false.
Proof.
  intros Hsep Hy Hpart a1 b Hab Hb.
  destruct b as [|c b' _] using rev_ind; [congruence|].
  rewrite app_assoc in Hab. apply app_inj_tail in Hab as [-> <-].
  apply contains_suffix in Hpart.
  destruct (startswith ((b' ++ [y]) ++ rest) sep) eqn:E; [|reflexivity].
  exfalso. rewrite <- app_assoc in E. cbn [app] in E.
  destruct (startswith_app_cases b' _ _ E) as [Hl|(q & -> & Hq & Hs)].
  - destruct b' as [|c b'].
    + destruct sep; [congruence|discriminate].
    + now rewrite (contains_startswith sep (c :: b') ltac:(discriminate) Hl) in Hpart.
  - destruct q as [|z q]; [congruence|].
    rewrite no_char_app in Hy. apply andb_prop in Hy as [_ Hy].
    cbn [no_char List.forallb] in Hy. apply andb_prop in Hy as [Hz _].
    cbn [startswith] in Hs. apply andb_prop in Hs as [Hs _].
    apply N.eqb_eq in Hs. subst z. now rewrite N.eqb_refl in Hz.
Qed.

Lemma split_none (sep s : list N) :
  sep <> [] -> contains sep s = false -> split sep s = [s].
Proof.
  intros Hsep H.
  destruct (split_skip sep s []) as (l & ls & E1 & E2).
  - intros a1 b -> Hb. rewrite app_nil_r. apply contains_suffix in H.
    destruct (startswith b sep) eqn:E; [|reflexivity].
    now rewrite (contains_startswith _ _ Hb E) in H.
  - cbn in E1. inversion E1; subst. now rewrite !app_nil_r in E2.
Qed.

Lemma split_tagged (x : N) (tail pre rest : list N) :
  no_char x tail = true -> contains (x :: tail) pre = false ->
  split (x :: tail) (pre ++ (x :: tail) ++ rest) = pre :: split (x :: tail) rest.
Proof.
  intros Hx Hpre.
  destruct (split_skip (x :: tail) pre ((x :: tail) ++ rest)
              (no_start_before_tag x tail pre rest Hx Hpre)) as (l & ls & E1 & E2).
  rewrite split_at_sep in E1 by discriminate. inversion E1; subst.
  now rewrite E2, app_nil_r.
Qed.

Lemma split_tagged_field (x y : N) (tail pre part rest : list N) :
  no_char x tail = true -> no_char y (x :: tail) = true ->
  contains (x :: tail) pre = false -> contains (x :: tail) part = false ->
  (exists l more,
     split (x :: tail) (pre ++ (x :: tail) ++ part ++ y :: rest)
     = pre :: (part ++ y :: l) :: more)
  /\ split (x :: tail) (pre ++ (x :: tail) ++ part) = [pre; part].
Proof.
  intros Hx Hy Hpre Hpart. rewrite !split_tagged by assumption. split.
  - destruct (split_skip (x :: tail) (part ++ [y]) rest
                (no_start_before_bar y (x :: tail) part rest ltac:(discriminate)
                   Hy Hpart)) as (l & ls & E1 & E2).
    rewrite <- app_assoc in E2. cbn [app] in E2. rewrite E2.
    exists l, ls. now rewrite <- app_assoc.
  - now rewrite split_none by (discriminate || assumption).
Qed.

(** X20.  [parse_type] returns the trimmed text between the first
    "Type:" and the next "|" (or the end): for a text [pre ++ "Type:" ++ ty],
    with or without "|" and more behind it, where "Type:" is neither in [pre]
    nor in [ty] and [ty] has no "|", it returns [ty] trimmed. *)
Theorem X20_type_field (pre ty rest : list N) :
  contains (u "Type:") pre = false -> contains (u "Type:") ty = false ->
  no_char 124 ty = true ->
  Warn.parse_type (pre ++ u "Type:" ++ ty ++ u "|" ++ rest) = inr (Some (strip ty))
  /\ Warn.parse_type (pre ++ u "Type:" ++ ty) = inr (Some (strip ty)).
Proof.
  intros Hpre Hty Hbar.
  destruct (split_tagged_field 84 124 (u "ype:") pre ty rest eq_refl eq_refl Hpre Hty)
    as [(l & more & E1) E2].
  change (84%N :: u "ype:") with (u "Type:") in E1, E2.
  unfold Warn.parse_type.
  rewrite !contains_tagged by discriminate. cbn [negb].
  change (u "|" ++ rest) with (124%N :: rest). rewrite E1, E2.
  cbn [index List.nth_error].
  destruct (split_char_first 124 ty l Hbar) as (more' & Hs).
  change (u "|") with [124%N]. rewrite Hs, (split_char_none 124 ty Hbar).
  split; reflexivity.
Qed.

(** X20, on a decision whose last field holds "Type:" once more. *)
Lemma X20_type_field_witness :
  Warn.parse_type (u "D-7 | Type: hire | Alice, Type: none") = inr (Some (u "hire"))
  /\ Warn.parse_type (u "D-7 | Type: hire ") = inr (Some (u "hire")).
Proof.
  exact (X20_type_field (u "D-7 | ") (u " hire ") (u " Alice, Type: none")
           eq_refl eq_refl eq_refl).
Defined.

Lemma split_char_cons (x : N) (a rest : list N) :
  no_char x a = true -> split [x] (a ++ x :: rest) = a :: split [x] rest.
Proof.
  intros H.
  destruct (split_skip [x] a (x :: rest) (no_char_no_start x a _ H)) as (l & ls & E1 & E2).
  change (x :: rest) with ([x] ++ rest) in E1.
  rewrite split_at_sep in E1 by discriminate. inversion E1; subst.
  now rewrite E2, app_nil_r.
Qed.

Lemma no_char_contains (x : N) (s : list N) :
  no_char x s = true -> contains [x] s = false.
Proof.
  induction s as [|c r IH]; [reflexivity|].
  cbn [no_char List.forallb]. fold (no_char x r). intros H.
  apply andb_prop in H as [Hc Hr]. cbn [contains startswith].
  rewrite (IH Hr), N.eqb_sym. destruct (c =? x)%N; [discriminate|reflexivity].
Qed.

Lemma no_char_join (y x : N) (hs : list (list N)) :
  (y =? x)%N = false ->
  List.Forall (fun h => no_char y h = true) hs -> no_char y (join [x] hs) = true.
Proof.
  intros Hyx H. induction H as [|h hs Hh Hhs IH]; [reflexivity|].
  cbn [join]. destruct hs as [|h' hs']; [exact Hh|].
  rewrite no_char_app, Hh. cbn [andb app no_char List.forallb].
  rewrite N.eqb_sym, Hyx. exact IH.
Qed.

Lemma split_join (x : N) (hs : list (list N)) :
  hs <> [] -> List.Forall (fun h => no_char x h = true) hs ->
  split [x] (join [x] hs) = hs.
Proof.
  intros Hne H. induction H as [|h hs Hh Hhs IH]; [congruence|].
  cbn [join]. destruct hs as [|h' hs'].
  - now apply split_char_none.
  - cbn [app]. rewrite split_char_cons by exact Hh. f_equal.
    apply IH. discriminate.
Qed.

Lemma filter_nonblank (hs : list (list N)) :
  List.Forall (fun h => strip h <> []) hs ->
  List.filter (fun h => match strip h with [] => false | _ => true end) hs = hs.
Proof.
  induction 1 as [|h hs Hh Hhs IH]; [reflexivity|].
  cbn [List.filter]. destruct (strip h); [congruence|]. now rewrite IH.
Qed.

(** X21.  [parse_harms] returns the trimmed items between the first
    "Harm:" and the next "|" (or the end): for non-blank items without ","
    and "|", joined by "," and free of "Harm:", it returns the items
    trimmed, in order. *)
Theorem X21_harm_list (pre rest : list N) (hs : list (list N)) :
  contains (u "Harm:") pre = false ->
  contains (u "Harm:") (join (u ",") hs) = false ->
  List.Forall (fun h => no_char 44 h = true) hs ->
  List.Forall (fun h => no_char 124 h = true) hs ->
  List.Forall (fun h => strip h <> []) hs ->
  Warn.parse_harms (pre ++ u "Harm:" ++ join (u ",") hs ++ u "|" ++ rest)
  = inr (List.map strip hs)
  /\ Warn.parse_harms (pre ++ u "Harm:" ++ join (u ",") hs) = inr (List.map strip hs).
Proof.
  intros Hpre Hpart Hcomma Hbar Hblank.
  assert (Hb : no_char 124 (join (u ",") hs) = true)
    by (apply (no_char_join 124 44); [reflexivity|exact Hbar]).
  assert (Hitems : List.map strip
            (List.filter (fun h => match strip h with [] => false | _ => true end)
               (split (u ",") (join (u ",") hs))) = List.map strip hs).
  { destruct hs as [|h hs']; [reflexivity|].
    change (u ",") with [44%N]. rewrite split_join by (discriminate || assumption).
    now rewrite filter_nonblank. }
  destruct (split_tagged_field 72 124 (u "arm:") pre (join (u ",") hs) rest
              eq_refl eq_refl Hpre Hpart) as [(l & more & E1) E2].
  change (72%N :: u "arm:") with (u "Harm:") in E1, E2.
  unfold Warn.parse_harms.
  rewrite !contains_tagged by discriminate. cbn [negb].
  change (u "|" ++ rest) with (124%N :: rest). rewrite E1, E2.
  cbn [index List.nth_error]. split.
  - change (124%N :: l) with (u "|" ++ l).
    rewrite (contains_tagged (u "|") (join (u ",") hs) l) by discriminate.
    change (u "|" ++ l) with (124%N :: l). change (u "|") with [124%N].
    rewrite (split_char_cons 124 _ l Hb). cbn [index List.nth_error].
    now rewrite Hitems.
  - change (u "|") with [124%N]. rewrite (no_char_contains 124 _ Hb).
    now rewrite Hitems.
Qed.

(** X21, on a sample outcome with two harms. *)
Lemma X21_harm_list_witness :
  Warn.parse_harms (u "O-3 | Harm: delay, cost | D-7") = inr [u "delay"; u "cost"]
  /\ Warn.parse_harms (u "O-3 | Harm: delay, cost ") = inr [u "delay"; u "cost"].
Proof.
  refine (X21_harm_list (u "O-3 | ") (u " D-7") [u " delay"; u " cost "]
            eq_refl eq_refl _ _ _).
  - repeat constructor.
  - repeat constructor.
  - repeat constructor; discriminate.
Defined.
